(** * bernet.config: the declarative configuration engine

    A shallow embedding of [bernet/config.py]: the error context
    ([InitContext]), the field descriptors ([REQUIRED], [OPTIONAL], [EITHER],
    [REPEAT], [SUBCLASS_OF]), the type wrapper ([_TypeConstructableWrapper])
    and the schema objects ([ConfigObject]), followed by the properties of
    construction, serialisation and equality.

    Modelling conventions.
    - Python values are the inductive [value]; classes and descriptor
      instances are the inductive [tpe].  A class is identified by its
      [__name__]; [type(v) == C] and [issubclass] are decided on names and on
      the list of ancestor names a class carries.
    - Floating point numbers are not part of the value universe; a numpy
      array is a one-dimensional array of integers.
    - The context object is mutated in place by the Python code; here it is
      threaded through every call, and it survives a raised exception
      (the monad [M] returns the context next to the outcome).
    - [new_with_ctx] stores the context under the reserved key [__ctx__] of
      the mapping it is given.  The context travels as the monad's state
      instead, and the entry itself is not materialised in the mappings of the
      model; the key stays an accepted one in the key check of [__init__].
    - How Python renders a value, a key or a class inside a message
      ([str], [repr], [format]) belongs to the interpreter, not to this
      repository: the three renderings are the fields of [Rendering], and
      every definition and theorem is parametric in them. *)

From Stdlib Require Import List String Ascii ZArith Bool Lia Arith DecimalString.
Import ListNotations.
Open Scope string_scope.

(** ** Values and declared types *)

Local Unset Elimination Schemes.

Inductive value : Type :=
| VNone
| VBool (b : bool)
| VInt (z : Z)
| VStr (s : string)
| VList (l : list value)
| VDict (d : list (string * value))
| VArray (a : list Z)              (* a one-dimensional integer numpy.ndarray *)
| VNpInt (z : Z)                   (* a numpy integer scalar, an element of an array *)
| VObj (cls : tpe) (attrs : list (string * value))  (* a ConfigObject instance and its __dict__ *)
with tpe : Type :=
| Builtin (name : string) (bases : list string)     (* a plain class: int, str, dict, ... *)
| Class (name : string) (bases : list string) (props : list (string * tpe))
                                   (* a ConfigObject subclass and its __config_properties__ *)
| REQUIRED (t : tpe)
| OPTIONAL (t : tpe) (default : value)
| EITHER (types : list tpe) (fix_values : list value)
| REPEAT (t : tpe)
| SUBCLASS_OF (t : tpe).

Local Set Elimination Schemes.

Definition dict := list (string * value).

Definition int_t := Builtin "int" ["object"].
Definition float_t := Builtin "float" ["object"].
Definition str_t := Builtin "str" ["object"].
Definition bool_t := Builtin "bool" ["int"; "object"].
Definition dict_t := Builtin "dict" ["object"].
Definition list_t := Builtin "list" ["object"].
Definition NoneType_t := Builtin "NoneType" ["object"].
Definition ndarray_t := Builtin "ndarray" ["object"].
Definition int64_t :=
  Builtin "int64" ["signedinteger"; "integer"; "number"; "generic"; "object"].

(** [_is_type(type(t))]: [t] is a class, not an instance. *)
Definition is_class (t : tpe) : bool :=
  match t with
  | Builtin _ _ | Class _ _ _ => true
  | _ => false
  end.

(** [t.__name__] of a class (descriptor instances have none). *)
Definition class_name (t : tpe) : string :=
  match t with
  | Builtin n _ | Class n _ _ => n
  | _ => ""
  end.

Definition class_bases (t : tpe) : list string :=
  match t with
  | Builtin _ b | Class _ b _ => b
  | _ => []
  end.

(** [type(v)] *)
Definition type_of (v : value) : tpe :=
  match v with
  | VNone => NoneType_t
  | VBool _ => bool_t
  | VInt _ => int_t
  | VStr _ => str_t
  | VList _ => list_t
  | VDict _ => dict_t
  | VArray _ => ndarray_t
  | VNpInt _ => int64_t
  | VObj cls _ => cls
  end.

(** [type(v).__name__] *)
Definition type_name (v : value) : string := class_name (type_of v).

(** [c == d] on two classes. *)
Definition class_eqb (c d : tpe) : bool :=
  is_class c && is_class d && String.eqb (class_name c) (class_name d).

Definition mem_string (s : string) (l : list string) : bool :=
  existsb (String.eqb s) l.

(** [issubclass(c, d)] for classes [c] and [d]. *)
Definition issubclass (c d : tpe) : bool :=
  String.eqb (class_name c) (class_name d)
  || mem_string (class_name d) (class_bases c).

(** [isinstance(v, c)] *)
Definition isinstance (v : value) (c : tpe) : bool := issubclass (type_of v) c.

(** [d.get(k)], with [None] for a missing key. *)
Fixpoint lookup {A : Type} (k : string) (d : list (string * A)) : option A :=
  match d with
  | [] => None
  | (k', v) :: d' => if String.eqb k k' then Some v else lookup k d'
  end.

Definition dict_get (d : dict) (k : string) : value :=
  match lookup k d with
  | Some v => v
  | None => VNone
  end.

(** [d[k] = v] / [setattr]: replace in place, or append a new entry. *)
Fixpoint dict_set (k : string) (v : value) (d : dict) : dict :=
  match d with
  | [] => [(k, v)]
  | (k', v') :: d' =>
      if String.eqb k k' then (k, v) :: d' else (k', v') :: dict_set k v d'
  end.

Definition keys {A : Type} (d : list (string * A)) : list string := map fst d.

(** ** Exceptions and the error context *)

Inductive exn : Type :=
| ConfigException (msg : string)
| ValueError (msg : string)
| TypeError
| IndexError
| AttributeError (name : string)
| KeyError (name : string)
| AssertionError.

Inductive outcome (A : Type) : Type :=
| Return (a : A)
| Raise (e : exn).
Arguments Return {A} a.
Arguments Raise {A} e.

Record InitContext : Type := mkInitContext {
  _stack : list (string * string);
  _errors : list string;
  raise_exceptions : bool
}.

(** [InitContext(raise_exceptions=b)] *)
Definition InitContext_new (b : bool) : InitContext := mkInitContext [] [] b.

Definition n_errors (ctx : InitContext) : nat := List.length (_errors ctx).

(** Code running against a context: the outcome and the context it leaves. *)
Definition M (A : Type) : Type := InitContext -> outcome A * InitContext.

Definition ret {A} (a : A) : M A := fun ctx => (Return a, ctx).
Definition raise {A} (e : exn) : M A := fun ctx => (Raise e, ctx).
Definition bind {A B} (m : M A) (k : A -> M B) : M B :=
  fun ctx =>
    match m ctx with
    | (Return a, ctx') => k a ctx'
    | (Raise e, ctx') => (Raise e, ctx')
    end.

Notation "x <- m ;; k" := (bind m (fun x => k))
  (at level 61, m at next level, right associativity).
Notation "m ;;; k" := (bind m (fun _ => k))
  (at level 61, right associativity).

Definition _push (obj : string * string) : M unit :=
  fun ctx => (Return tt,
              mkInitContext (_stack ctx ++ [obj]) (_errors ctx) (raise_exceptions ctx)).

Definition _pop : M unit :=
  fun ctx =>
    match _stack ctx with
    | [] => (Raise IndexError, ctx)
    | _ => (Return tt,
            mkInitContext (removelast (_stack ctx)) (_errors ctx) (raise_exceptions ctx))
    end.

(** [try: body finally: fin]: [fin] runs on both exits; an exception of
    [fin] replaces the pending one. *)
Definition try_finally {A} (body : M A) (fin : M unit) : M A :=
  fun ctx =>
    match body ctx with
    | (r, ctx1) =>
        match fin ctx1 with
        | (Return _, ctx2) => (r, ctx2)
        | (Raise e, ctx2) => (Raise e, ctx2)
        end
    end.

(** [with ctx.step_into(obj, name): body] *)
Definition step_into {A} (obj name : string) (body : M A) : M A :=
  try_finally (_push (obj, name) ;;; body) _pop.

Definition nl : string := String (ascii_of_nat 10) EmptyString.

Fixpoint spaces (n : nat) : string :=
  match n with
  | O => ""
  | S n' => String " "%char (spaces n')
  end.

(** [s.ljust(width)] *)
Definition ljust (width : nat) (s : string) : string :=
  s ++ spaces (width - String.length s).

(** The trace appended to a message by [error]. *)
Definition parse_stack (stack : list (string * string)) : string :=
  let idents := rev (map (fun f => ljust 10 (fst f ++ ": ") ++ snd f) stack) in
  match idents with
  | [] => ""
  | _ => nl ++ "Traceback:" ++ nl ++ "    " ++ String.concat ("," ++ nl ++ "    ") idents
  end.

Definition error_str (msg : string) (ctx : InitContext) : string :=
  msg ++ parse_stack (_stack ctx).

(** [ctx.error(msg)] *)
Definition error (msg : string) : M unit :=
  fun ctx =>
    let ctx' := mkInitContext (_stack ctx) (_errors ctx ++ [error_str msg ctx])
                              (raise_exceptions ctx) in
    if raise_exceptions ctx
    then (Raise (ConfigException (error_str msg ctx)), ctx')
    else (Return tt, ctx').

Definition errors_str (ctx : InitContext) : string :=
  String.concat nl (_errors ctx).

(** ** Equality of values: Python's [==] as a truth value

    A comparison with an array operand yields an array, whose truth value
    numpy refuses; the model raises that [ValueError] for every array (numpy
    does so for arrays of two or more elements).  [ConfigObject.__eq__] is the
    [VObj] case.  Its loop runs over the declared property names and reads
    the attributes of [self] by name; to keep the recursion structural the
    comparison of every attribute of [self] is tabulated first ([compared])
    and the loop looks its answers up there.  Lemma [py_eq_VObj] below states
    the loop in the shape of the code. *)

Definition ambiguous : exn :=
  ValueError "The truth value of an array with more than one element is ambiguous. Use a.any() or a.all()".

(** The number a [bool], [int] or numpy integer compares as. *)
Definition as_number (v : value) : option Z :=
  match v with
  | VBool b => Some (if b then 1 else 0)%Z
  | VInt z | VNpInt z => Some z
  | _ => None
  end.

Definition is_array (v : value) : bool :=
  match v with VArray _ => true | _ => false end.

(** [a == b] on two arrays of one shape, and [np.all]. *)
Fixpoint np_eq (a b : list Z) : list bool :=
  match a, b with
  | x :: a', y :: b' => Z.eqb x y :: np_eq a' b'
  | _, _ => []
  end.

Definition np_all (l : list bool) : bool := forallb (fun b => b) l.

Definition config_properties (cls : tpe) : list (string * tpe) :=
  match cls with
  | Class _ _ props => props
  | _ => []
  end.

(** [obj.__dict__] *)
Definition attrs_of (v : value) : dict :=
  match v with
  | VObj _ attrs => attrs
  | _ => []
  end.

(** A loop that answers [False] or raises at the first item that does, and
    [True] at its end. *)
Fixpoint all_true {A} (check : A -> outcome bool) (l : list A) : outcome bool :=
  match l with
  | [] => Return true
  | x :: l' =>
      match check x with
      | Return true => all_true check l'
      | r => r
      end
  end.

(** The items of two lists of one length, pairwise. *)
Fixpoint all_eq (eq : value -> value -> outcome bool) (l l' : list value)
  : outcome bool :=
  match l, l' with
  | x :: l1, y :: l1' =>
      match eq x y with
      | Return true => all_eq eq l1 l1'
      | r => r
      end
  | _, _ => Return true
  end.

(** Every entry of [d] against the entry of [d'] under the same key. *)
Fixpoint all_items (eq : value -> value -> outcome bool) (d d' : dict)
  : outcome bool :=
  match d with
  | [] => Return true
  | (k, x) :: d1 =>
      match lookup k d' with
      | None => Return false
      | Some y =>
          match eq x y with
          | Return true => all_items eq d1 d'
          | r => r
          end
      end
  end.

Fixpoint py_eq (a b : value) {struct a} : outcome bool :=
  match a with
  | VObj cls attrs =>
      (* ConfigObject.__eq__(self, other) *)
      if negb (class_eqb cls (type_of b)) then Return false
      else
        (* what the loop finds for each attribute of [self], should it be
           asked for: [getattr(other, name)], the two [isinstance] tests and
           the comparison *)
        let compared :=
          map (fun attr : string * value =>
                 let (name, self_prop) := attr in
                 (name,
                  match lookup name (attrs_of b) with
                  | None => Raise (AttributeError name)
                  | Some other_prop =>
                      if negb (isinstance self_prop (type_of other_prop))
                         || negb (isinstance other_prop (type_of self_prop))
                      then Return false
                      else if isinstance self_prop ndarray_t then
                        match self_prop with
                        | VArray arr => Return (np_all (np_eq arr arr))
                        | _ => py_eq self_prop self_prop
                        end
                      else py_eq self_prop other_prop
                  end))
              attrs in
        all_true
          (fun prop_name =>
             match lookup ("_" ++ prop_name) compared with
             | None => Raise (AttributeError ("_" ++ prop_name))
             | Some r => r
             end)
          (keys (config_properties cls))
  | VArray _ => Raise ambiguous
  | VList l =>
      match b with
      | VList l' =>
          if negb (Nat.eqb (List.length l) (List.length l')) then Return false
          else all_eq py_eq l l'
      | VArray _ => Raise ambiguous
      | _ => Return false
      end
  | VDict d =>
      match b with
      | VDict d' =>
          if negb (Nat.eqb (List.length d) (List.length d')) then Return false
          else all_items py_eq d d'
      | VArray _ => Raise ambiguous
      | _ => Return false
      end
  | VStr s =>
      match b with
      | VStr s' => Return (String.eqb s s')
      | VArray _ => Raise ambiguous
      | _ => Return false
      end
  | VNone =>
      match b with
      | VNone => Return true
      | VArray _ => Raise ambiguous
      | _ => Return false
      end
  | VBool _ | VInt _ | VNpInt _ =>
      match b with
      | VArray _ => Raise ambiguous
      | _ =>
          match as_number a, as_number b with
          | Some x, Some y => Return (Z.eqb x y)
          | _, _ => Return false
          end
      end
  end.

(** The body of the loop of [ConfigObject.__eq__] for one property: the two
    [isinstance] tests, then the comparison. *)
Definition compare_props (self_prop other_prop : value) : outcome bool :=
  if negb (isinstance self_prop (type_of other_prop))
     || negb (isinstance other_prop (type_of self_prop))
  then Return false
  else if isinstance self_prop ndarray_t then
    match self_prop with
    | VArray arr => Return (np_all (np_eq arr arr))
    | _ => py_eq self_prop self_prop
    end
  else py_eq self_prop other_prop.

(** [a != b] *)
Definition py_ne (a b : value) : outcome bool :=
  match py_eq a b with
  | Return r => Return (negb r)
  | Raise e => Raise e
  end.

(** [ConfigObject.__eq__(self, other)] *)
Definition __eq__ (self other : value) : outcome bool := py_eq self other.

(** A pure computation that may raise, run inside [M]. *)
Definition lift {A} (r : outcome A) : M A := fun ctx => (r, ctx).

Definition obind {A B} (r : outcome A) (k : A -> outcome B) : outcome B :=
  match r with
  | Return a => k a
  | Raise e => Raise e
  end.

Notation "x <~ r ;; k" := (obind r (fun x => k))
  (at level 61, r at next level, right associativity).

(** [[f(x) for x in l]] where [f] may raise. *)
Fixpoint omap {A B} (f : A -> outcome B) (l : list A) : outcome (list B) :=
  match l with
  | [] => Return []
  | x :: l' => y <~ f x ;; ys <~ omap f l' ;; Return (y :: ys)
  end.

(** [try: body except ConfigException: handler] *)
Definition except_ConfigException {A} (body : M A) (handler : M A) : M A :=
  fun ctx =>
    match body ctx with
    | (Raise (ConfigException _), ctx') => handler ctx'
    | r => r
    end.

(** [[f(x) for x in l]] with the effects of [f] in sequence. *)
Fixpoint for_each {A B} (f : A -> M B) (l : list A) : M (list B) :=
  match l with
  | [] => ret []
  | x :: l' => y <- f x ;; ys <- for_each f l' ;; ret (y :: ys)
  end.

(** [[f(i, x) for i, x in enumerate(l)]], counting from [i]. *)
Fixpoint for_each_enumerate {A B} (f : nat -> A -> M B) (i : nat) (l : list A)
  : M (list B) :=
  match l with
  | [] => ret []
  | x :: l' => y <- f i x ;; ys <- for_each_enumerate f (S i) l' ;; ret (y :: ys)
  end.

(** A loop over [l] that updates an accumulator. *)
Fixpoint for_fold {A S} (f : A -> S -> M S) (l : list A) (s : S) : M S :=
  match l with
  | [] => ret s
  | x :: l' => s' <- f x s ;; for_fold f l' s'
  end.

(** ** Renderings supplied by the interpreter *)

Record Rendering : Type := mkRendering {
  str_value : value -> string;     (* str(v), and format(v) with an empty spec *)
  repr_value : value -> string;    (* repr(v) *)
  str_class : tpe -> string        (* str(C) of a class or a descriptor *)
}.

Section Config.

Variable R : Rendering.

(** ** Field descriptors *)

(** [field.default()] *)
Definition default (f : tpe) : value :=
  match f with
  | OPTIONAL _ d => d
  | REPEAT _ => VList []
  | _ => VNone
  end.

(** [field.traceback_type()] *)
Definition traceback_type (f : tpe) : string := "Field".

(** [REQUIRED.__init__]: an [OPTIONAL] inside is refused. *)
Definition REQUIRED_init (t : tpe) : outcome tpe :=
  match t with
  | OPTIONAL _ _ =>
      Raise (ValueError "OPTIONAL in REQUIRED is ambiguous and not allowed")
  | _ => Return (REQUIRED t)
  end.

(** The message of the type wrapper's last branch. *)
Definition expected_type_msg (obj : tpe) (v : value) : string :=
  "Expected type `" ++ class_name obj ++ "`, but got value `" ++ str_value R v
  ++ "` with type `" ++ type_name v ++ "`.".

(** The ordered items a [REPEAT] iterates over: [iter(listlike)], which
    raises [TypeError] on a value that is not iterable. *)
Definition iter (listlike : value) : option (list value) :=
  match listlike with
  | VList l => Some l
  | VDict d => Some (map VStr (keys d))
  | VArray a => Some (map VNpInt a)
  | VStr s => Some (map (fun c => VStr (String c EmptyString)) (list_ascii_of_string s))
  | _ => None
  end.

Definition is_None (v : value) : bool :=
  match v with VNone => true | _ => false end.

Definition count_true (truths : list bool) : nat :=
  List.length (filter (fun b => b) truths).

(** [[all[i] for i, b in enumerate(truths) if b]] *)
Fixpoint select {A} (truths : list bool) (all : list A) : list A :=
  match truths, all with
  | b :: truths', x :: all' => if b then x :: select truths' all' else select truths' all'
  | _, _ => []
  end.

(** [l[-1]] and [l[:-1]] *)
Definition last_item (l : list string) : outcome string :=
  match l with
  | [] => Raise IndexError
  | _ => Return (last l "")
  end.

Definition unknown_key_msg (k : string) (valid_keys : list string) : string :=
  repr_value R (VStr k) ++ " is not in the allowed keys `"
  ++ str_value R (VList (map VStr valid_keys)) ++ "`".

(** The last loop of [ConfigObject.__init__]: the first key outside
    [valid_keys] raises. *)
Fixpoint check_keys (ks : list string) (valid_keys : list string) : M unit :=
  match ks with
  | [] => ret tt
  | k :: ks' =>
      if mem_string k valid_keys then check_keys ks' valid_keys
      else raise (ValueError (unknown_key_msg k valid_keys))
  end.

(** The second half of [EITHER._construct]: the truth bits and the choice. *)
Definition EITHER_choose (types : list tpe) (fix_values : list value)
           (v : value) (constructed_values : list value) : M value :=
  fix_truths <- for_each (fun fix_value => lift (py_eq v fix_value)) fix_values ;;
  let truths := (map (fun c => negb (is_None c)) constructed_values ++ fix_truths)%list in
  if negb (Nat.eqb (count_true truths) 1) then
    let all := (map (str_class R) types ++ map (str_value R) fix_values)%list in
    let true_values := select truths all in
    match true_values with
    | _ :: _ =>
        if Nat.leb 2 (List.length true_values) then
          let n_minus_one := String.concat ", " (removelast true_values) in
          error ("Value `" ++ str_value R v ++ "` satisfies " ++ n_minus_one
                 ++ " and " ++ last true_values "" ++ " ") ;;;
          ret VNone
        else raise AssertionError
    | [] =>
        let n_minus_one := String.concat "`, `" (removelast all) in
        last_all <- lift (last_item all) ;;
        error ("Value `" ++ str_value R v ++ "` doesn't satisfy any of `"
               ++ n_minus_one ++ "` or `" ++ last_all ++ "`") ;;;
        ret VNone
    end
  else
    match constructed_values with
    | c :: _ => ret c
    | [] => ret v
    end.

(** [_TypeConstructableWrapper(t).construct(value, ctx)]; on a descriptor
    instance [t] this is [t.construct(value, ctx)], that is
    [t._construct(value, ctx)], since [type(value) == t] is false there. *)
Fixpoint construct (t : tpe) (v : value) {struct t} : M value :=
  match t with
  | Builtin _ _ =>
      if class_eqb (type_of v) t then ret v
      else error (expected_type_msg t v) ;;; ret VNone
  | Class name _ props =>
      if class_eqb (type_of v) t then ret v
      else
        match v with
        | VDict kwargs =>
            (* t.new_with_ctx(ctx, v), that is ConfigObject.__init__ *)
            attrs <- step_into "Object" name
              (for_fold
                 (fun (p : string * tpe) (attrs : dict) =>
                    step_into (traceback_type (snd p)) (fst p)
                      (constructed_val <- construct (snd p) (dict_get kwargs (fst p)) ;;
                       ret (dict_set ("_" ++ fst p)
                              (if is_None constructed_val then default (snd p)
                               else constructed_val) attrs)))
                 props []) ;;
            check_keys (keys kwargs) (keys props ++ ["__ctx__"])%list ;;;
            ret (VObj t attrs)
        | _ => error (expected_type_msg t v) ;;; ret VNone
        end
  | REQUIRED tpe => construct tpe v
  | OPTIONAL tpe d =>
      if is_None v then ret d else construct tpe v
  | EITHER types fix_values =>
      constructed_values <-
        for_each (fun t' => except_ConfigException (construct t' v) (ret VNone))
                 types ;;
      EITHER_choose types fix_values v constructed_values
  | REPEAT tpe =>
      if is_None v then ret VNone
      else
        match v with
        | VStr _ => error "Expected a list, but got a str." ;;; ret VNone
        | _ =>
            match iter v with
            | None =>
                error ("Expected a listlike type, but got type " ++ type_name v ++ ".") ;;;
                ret VNone
            | Some listlike =>
                constructed_list <-
                  for_each_enumerate
                    (fun i el =>
                       step_into "List" ("at element " ++ str_value R (VInt (Z.of_nat i)))
                         (construct tpe el))
                    0 listlike ;;
                ret (VList constructed_list)
            end
        end
  | SUBCLASS_OF tpe =>
      if negb (is_class tpe) then raise TypeError
      else if issubclass (type_of v) tpe then ret v
      else
        error ("Got value `" ++ str_value R v ++ "` of type `" ++ type_name v
               ++ "`. Expected a subclass of `" ++ class_name tpe ++ "``") ;;;
        ret VNone
  end.

(** [field_def.construct(value, ctx)] followed by the fall-back on
    [default()] and the [setattr] of [_set_property]. *)
Definition set_attr (field_def : tpe) (name : string) (v : value) (attrs : dict)
  : M dict :=
  constructed_val <- construct field_def v ;;
  ret (dict_set ("_" ++ name)
         (if is_None constructed_val then default field_def else constructed_val)
         attrs).

(** [ConfigObject.__init__] on the mapping [kwargs], under the context found in
    [kwargs]: the loop over the declared fields, then the check of the keys;
    returns [self]. *)
Definition init_fields (cls : tpe) (kwargs : dict) : M dict :=
  step_into "Object" (class_name cls)
    (for_fold
       (fun (p : string * tpe) (attrs : dict) =>
          step_into (traceback_type (snd p)) (fst p)
            (set_attr (snd p) (fst p) (dict_get kwargs (fst p)) attrs))
       (config_properties cls) []).

Definition valid_keys (cls : tpe) : list string :=
  (keys (config_properties cls) ++ ["__ctx__"])%list.

Definition __init__ (cls : tpe) (kwargs : dict) : M value :=
  attrs <- init_fields cls kwargs ;;
  check_keys (keys kwargs) (valid_keys cls) ;;;
  ret (VObj cls attrs).

(** [cls.new_with_ctx(ctx, obj)] *)
Definition new_with_ctx (cls : tpe) (obj : dict) : M value := __init__ cls obj.

(** The call of the class on a mapping [kwargs] by a user: the context is
    [kwargs.get("__ctx__", InitContext(raise_exceptions=True))], and an entry
    a user stored under that key is not a context. *)
Definition ConfigObject_new (cls : tpe) (kwargs : dict) : outcome value :=
  match lookup "__ctx__" kwargs with
  | Some _ => Raise (AttributeError "step_into")
  | None => fst (__init__ cls kwargs (InitContext_new true))
  end.

(** [field.construct(value, ctx=None)] *)
Definition ConfigField_construct (f : tpe) (v : value) (ctx : option InitContext)
  : outcome value * InitContext :=
  match ctx with
  | None => construct f v (InitContext_new false)
  | Some ctx => construct f v ctx
  end.

(** [field.valid(value)] *)
Definition valid (f : tpe) (v : value) : outcome bool :=
  match ConfigField_construct f v (Some (InitContext_new true)) with
  | (Return _, _) => Return true
  | (Raise (ConfigException _), _) => Return false
  | (Raise e, _) => Raise e
  end.

(** [self._set_property(name, value, ctx=None)]; the object after the call. *)
Definition _set_property (self : value) (name : string) (v : value)
           (ctx : option InitContext) : outcome value * InitContext :=
  let ctx := match ctx with
             | None => InitContext_new true
             | Some ctx => ctx
             end in
  match lookup name (config_properties (type_of self)) with
  | None => (Raise (KeyError name), ctx)
  | Some field_def =>
      match set_attr field_def name v (attrs_of self) ctx with
      | (Return attrs, ctx') => (Return (VObj (type_of self) attrs), ctx')
      | (Raise e, ctx') => (Raise e, ctx')
      end
  end.

(** ** Serialisation *)

(** [type(obj) in [int, float, str, dict]] *)
Definition is_plain_data (obj : value) : bool :=
  match obj with
  | VInt _ | VStr _ | VDict _ => true
  | _ => false
  end.

(** [ConfigField.to_builtin(self, obj)]; the [VObj] case is
    [ConfigObject._to_builtin], each property going through the [to_builtin]
    of its descriptor ([REPEAT] overrides it).  The last branch formats a
    message without its argument, which raises [IndexError].  As in [py_eq],
    what each attribute serialises to is tabulated first ([converted]) and the
    loop over the declared properties looks it up; lemma [to_builtin_VObj]
    below states the loop in the shape of the code. *)
Fixpoint to_builtin (obj : value) : outcome value :=
  match obj with
  | VObj cls attrs =>
      (* what each attribute serialises to, should it be asked for: by
         [ConfigField.to_builtin] and by [REPEAT.to_builtin] *)
      let converted :=
        map (fun attr : string * value =>
               let (name, prop_value) := attr in
               (name,
                (to_builtin prop_value,
                 match prop_value with
                 | VList items => l <~ omap to_builtin items ;; Return (VList l)
                 | VStr _ | VDict _ =>
                     match iter prop_value with
                     | Some items => Return (VList items)
                     | None => Raise TypeError
                     end
                 | VArray [] => Return (VList [])
                 | VArray (_ :: _) => Raise IndexError
                 | _ => Raise TypeError
                 end)))
            attrs in
      d <~ omap
             (fun definition : string * tpe =>
                let (prop_name, definiton) := definition in
                match lookup ("_" ++ prop_name) converted with
                | None => Raise (AttributeError ("_" ++ prop_name))
                | Some (by_field, by_repeat) =>
                    b <~ match definiton with
                         | REPEAT _ => by_repeat
                         | _ => by_field
                         end ;;
                    Return (prop_name, b)
                end)
             (config_properties cls) ;;
      Return (VDict d)
  | _ => if is_plain_data obj then Return obj else Raise IndexError
  end.

(** [REPEAT.to_builtin(self, obj)] *)
Definition REPEAT_to_builtin (obj : value) : outcome value :=
  match obj with
  | VList items => l <~ omap to_builtin items ;; Return (VList l)
  | VStr _ | VDict _ =>
      match iter obj with
      | Some items => Return (VList items)
      | None => Raise TypeError
      end
  | VArray [] => Return (VList [])
  | VArray (_ :: _) => Raise IndexError
  | _ => Raise TypeError
  end.

(** [definiton.to_builtin(prop_value)] *)
Definition field_to_builtin (definiton : tpe) (prop_value : value) : outcome value :=
  match definiton with
  | REPEAT _ => REPEAT_to_builtin prop_value
  | _ => to_builtin prop_value
  end.

(** [self._to_builtin()] *)
Definition _to_builtin (self : value) : outcome value :=
  match self with
  | VObj _ _ => to_builtin self
  | _ => Raise (AttributeError "_to_builtin")
  end.

(** ** Parsing from text *)

(** What [print_report] writes. *)
Definition report (ctx : InitContext) : string :=
  "There occurred " ++ str_value R (VInt (Z.of_nat (n_errors ctx))) ++ " errors "
  ++ nl ++ errors_str ctx.

Definition print_report (ctx : InitContext) : option string :=
  if negb (Nat.eqb (n_errors ctx) 0) then Some (report ctx) else None.

(** What [from_json] hands back: the object, or a [ValueError] instance
    handed back as an ordinary result. *)
Inductive loaded : Type :=
| Loaded (obj : value)
| NotLoaded (err : exn).

(** [cls.from_json(str)] on the decoded text [raw_obj = json.loads(str)]:
    what is printed, the outcome, and the context after the call. *)
Definition from_json (cls : tpe) (raw_obj : value)
  : option string * outcome loaded * InitContext :=
  let ctx := InitContext_new false in
  match raw_obj with
  | VDict kwargs =>
      match __init__ cls kwargs ctx with
      | (Raise e, ctx') => (None, Raise e, ctx')
      | (Return obj, ctx') =>
          if negb (Nat.eqb (n_errors ctx') 0)
          then (print_report ctx',
                Return (NotLoaded (ValueError ("Could not load " ++ class_name cls))),
                ctx')
          else (None, Return (Loaded obj), ctx')
      end
  | _ => (None, Raise TypeError, ctx)
  end.

End Config.

(** ** CPython's renderings

    The renderings of CPython where they are fixed by the value alone: [None],
    booleans, integers, strings (quoting and the common escapes), lists and
    mappings of those, classes by their name.  An object prints with its
    address in CPython; here it prints by its class name only. *)

Definition str_of_Z (z : Z) : string := NilZero.string_of_int (Z.to_int z).

Definition contains (c : ascii) (s : string) : bool :=
  existsb (Ascii.eqb c) (list_ascii_of_string s).

Definition escape (q : ascii) (c : ascii) : string :=
  if Ascii.eqb c q then String "\"%char (String q EmptyString)
  else if Ascii.eqb c "\"%char then "\\"
  else if Ascii.eqb c (ascii_of_nat 10) then "\n"
  else if Ascii.eqb c (ascii_of_nat 13) then "\r"
  else if Ascii.eqb c (ascii_of_nat 9) then "\t"
  else String c EmptyString.

Definition repr_str (s : string) : string :=
  let q := if contains "'"%char s && negb (contains (ascii_of_nat 34) s)
           then ascii_of_nat 34 else "'"%char in
  String q (String.concat "" (map (escape q) (list_ascii_of_string s)))
  ++ String q EmptyString.

Fixpoint py_repr (v : value) : string :=
  match v with
  | VNone => "None"
  | VBool b => if b then "True" else "False"
  | VInt z => str_of_Z z
  | VNpInt z => "np.int64(" ++ str_of_Z z ++ ")"
  | VStr s => repr_str s
  | VList l => "[" ++ String.concat ", " (map py_repr l) ++ "]"
  | VDict d =>
      "{" ++ String.concat ", "
               (map (fun kv => repr_str (fst kv) ++ ": " ++ py_repr (snd kv)) d)
      ++ "}"
  | VArray a => "array([" ++ String.concat ", " (map str_of_Z a) ++ "])"
  | VObj cls _ => "<" ++ class_name cls ++ " object>"
  end.

Definition py_str (v : value) : string :=
  match v with
  | VStr s => s
  | VNpInt z => str_of_Z z
  | VArray a => "[" ++ String.concat " " (map str_of_Z a) ++ "]"
  | _ => py_repr v
  end.

Definition py_str_class (t : tpe) : string :=
  if is_class t then "<class '" ++ class_name t ++ "'>" else "<ConfigField object>".

Definition cpython : Rendering := mkRendering py_str py_repr py_str_class.

(** * Properties *)

(** ** Induction on declared types *)

Section tpe_induction.

Variable P : tpe -> Prop.
Hypothesis HBuiltin : forall name bases, P (Builtin name bases).
Hypothesis HClass : forall name bases props,
    Forall (fun p => P (snd p)) props -> P (Class name bases props).
Hypothesis HREQUIRED : forall t, P t -> P (REQUIRED t).
Hypothesis HOPTIONAL : forall t d, P t -> P (OPTIONAL t d).
Hypothesis HEITHER : forall types fix_values,
    Forall P types -> P (EITHER types fix_values).
Hypothesis HREPEAT : forall t, P t -> P (REPEAT t).
Hypothesis HSUBCLASS_OF : forall t, P t -> P (SUBCLASS_OF t).

Fixpoint tpe_nested_ind (t : tpe) : P t :=
  match t with
  | Builtin name bases => HBuiltin name bases
  | Class name bases props =>
      HClass name bases props
        ((fix each (ps : list (string * tpe)) : Forall (fun p => P (snd p)) ps :=
            match ps with
            | [] => Forall_nil _
            | p :: ps' => Forall_cons p (tpe_nested_ind (snd p)) (each ps')
            end) props)
  | REQUIRED t' => HREQUIRED t' (tpe_nested_ind t')
  | OPTIONAL t' d => HOPTIONAL t' d (tpe_nested_ind t')
  | EITHER types fix_values =>
      HEITHER types fix_values
        ((fix each (ts : list tpe) : Forall P ts :=
            match ts with
            | [] => Forall_nil _
            | t' :: ts' => Forall_cons t' (tpe_nested_ind t') (each ts')
            end) types)
  | REPEAT t' => HREPEAT t' (tpe_nested_ind t')
  | SUBCLASS_OF t' => HSUBCLASS_OF t' (tpe_nested_ind t')
  end.

End tpe_induction.

(** ** Induction on values *)

Section value_induction.

Variable P : value -> Prop.
Hypothesis HNone : P VNone.
Hypothesis HBool : forall b, P (VBool b).
Hypothesis HInt : forall z, P (VInt z).
Hypothesis HStr : forall s, P (VStr s).
Hypothesis HList : forall l, Forall P l -> P (VList l).
Hypothesis HDict : forall d, Forall (fun kv => P (snd kv)) d -> P (VDict d).
Hypothesis HArray : forall a, P (VArray a).
Hypothesis HNpInt : forall z, P (VNpInt z).
Hypothesis HObj : forall cls attrs,
    Forall (fun kv => P (snd kv)) attrs -> P (VObj cls attrs).

Fixpoint value_nested_ind (v : value) : P v :=
  match v with
  | VNone => HNone
  | VBool b => HBool b
  | VInt z => HInt z
  | VStr s => HStr s
  | VList l =>
      HList l ((fix each (l : list value) : Forall P l :=
                  match l with
                  | [] => Forall_nil _
                  | x :: l' => Forall_cons x (value_nested_ind x) (each l')
                  end) l)
  | VDict d =>
      HDict d ((fix each (d : dict) : Forall (fun kv => P (snd kv)) d :=
                  match d with
                  | [] => Forall_nil _
                  | kv :: d' => Forall_cons kv (value_nested_ind (snd kv)) (each d')
                  end) d)
  | VArray a => HArray a
  | VNpInt z => HNpInt z
  | VObj cls attrs =>
      HObj cls attrs
        ((fix each (d : dict) : Forall (fun kv => P (snd kv)) d :=
            match d with
            | [] => Forall_nil _
            | kv :: d' => Forall_cons kv (value_nested_ind (snd kv)) (each d')
            end) attrs)
  end.

End value_induction.

(** ** Association lists *)

Fixpoint uniqueb (l : list string) : bool :=
  match l with
  | [] => true
  | x :: l' => negb (mem_string x l') && uniqueb l'
  end.

Lemma lookup_map {A B} (g : string -> A -> B) k (l : list (string * A)) :
  lookup k (map (fun kv : string * A => let (n, v) := kv in (n, g n v)) l)
  = option_map (g k) (lookup k l).
Proof.
  induction l as [|[n v] l IH]; simpl; [reflexivity|].
  destruct (String.eqb k n) eqn:E; [|exact IH].
  apply String.eqb_eq in E; subst; reflexivity.
Qed.

Lemma lookup_not_in {A} k (l : list (string * A)) :
  mem_string k (keys l) = false -> lookup k l = None.
Proof.
  induction l as [|[n v] l IH]; simpl; [reflexivity|].
  destruct (String.eqb k n); simpl; [discriminate | exact IH].
Qed.

Lemma lookup_unique_In {A} k (x : A) (l : list (string * A)) :
  uniqueb (keys l) = true -> In (k, x) l -> lookup k l = Some x.
Proof.
  induction l as [|[n v] l IH]; simpl; [contradiction|].
  intros Hu [Heq|Hin].
  - inversion Heq; subst; rewrite String.eqb_refl; reflexivity.
  - apply andb_true_iff in Hu; destruct Hu as [Hn Hu].
    destruct (String.eqb k n) eqn:E; [|apply IH; assumption].
    apply String.eqb_eq in E; subst n.
    apply negb_true_iff in Hn.
    assert (Hk : mem_string k (keys l) = true).
    { unfold mem_string; apply existsb_exists; exists k; split;
        [apply (in_map fst _ _ Hin) | apply String.eqb_refl]. }
    rewrite Hk in Hn; discriminate.
Qed.

(** ** The code of [__eq__] and of [_to_builtin], property by property *)

Lemma py_eq_VObj cls attrs b :
  py_eq (VObj cls attrs) b
  = if negb (class_eqb cls (type_of b)) then Return false
    else all_true
           (fun prop_name =>
              match lookup ("_" ++ prop_name) attrs with
              | None => Raise (AttributeError ("_" ++ prop_name))
              | Some self_prop =>
                  match lookup ("_" ++ prop_name) (attrs_of b) with
                  | None => Raise (AttributeError ("_" ++ prop_name))
                  | Some other_prop => compare_props self_prop other_prop
                  end
              end)
           (keys (config_properties cls)).
Proof.
  simpl. destruct (negb _); [reflexivity|].
  induction (keys (config_properties cls)) as [|n names IH]; simpl; [reflexivity|].
  rewrite IH.
  rewrite (lookup_map
             (fun name self_prop =>
                match lookup name (attrs_of b) with
                | Some other_prop => compare_props self_prop other_prop
                | None => Raise (AttributeError name)
                end)).
  destruct (lookup (String "_"%char n) attrs); reflexivity.
Qed.

Lemma to_builtin_VObj cls attrs :
  to_builtin (VObj cls attrs)
  = d <~ omap
           (fun definition : string * tpe =>
              match lookup ("_" ++ fst definition) attrs with
              | None => Raise (AttributeError ("_" ++ fst definition))
              | Some prop_value =>
                  b <~ field_to_builtin (snd definition) prop_value ;;
                  Return (fst definition, b)
              end)
           (config_properties cls) ;;
    Return (VDict d).
Proof.
  simpl. f_equal.
  induction (config_properties cls) as [|[n f] props IH]; simpl; [reflexivity|].
  rewrite IH.
  rewrite (lookup_map (fun (_ : string) prop_value =>
                         (to_builtin prop_value, REPEAT_to_builtin prop_value))).
  destruct (lookup (String "_"%char n) attrs); simpl; [|reflexivity].
  destruct f; reflexivity.
Qed.

Lemma mem_string_In s l : mem_string s l = true <-> In s l.
Proof.
  unfold mem_string; rewrite existsb_exists; split.
  - intros [x [Hin Heq]]; apply String.eqb_eq in Heq; subst; assumption.
  - intros Hin; exists s; split; [assumption | apply String.eqb_refl].
Qed.

Lemma mem_string_app s l1 l2 :
  mem_string s (l1 ++ l2) = mem_string s l1 || mem_string s l2.
Proof. unfold mem_string; apply existsb_app. Qed.

Lemma dict_set_fresh k v (d : dict) :
  mem_string k (keys d) = false -> dict_set k v d = (d ++ [(k, v)])%list.
Proof.
  induction d as [|[n x] d IH]; simpl; [reflexivity|].
  destruct (String.eqb k n); simpl; [discriminate|].
  intros H; rewrite IH; [reflexivity | assumption].
Qed.

Lemma mem_string_prefix k l :
  mem_string ("_" ++ k) (map (fun n => "_" ++ n) l) = mem_string k l.
Proof.
  induction l as [|n l IH]; simpl; [reflexivity|].
  simpl in IH; rewrite IH; reflexivity.
Qed.

Lemma uniqueb_prefix l : uniqueb (map (fun n => "_" ++ n) l) = uniqueb l.
Proof.
  induction l as [|n l IH]; simpl; [reflexivity|].
  simpl in IH; rewrite IH.
  pose proof (mem_string_prefix n l) as H; simpl in H; rewrite H; reflexivity.
Qed.

Lemma lookup_map_key {A B} (g : string -> string) (h : string * A -> B)
      (ps : list (string * A)) p :
  uniqueb (map g (keys ps)) = true -> In p ps ->
  lookup (g (fst p)) (map (fun q => (g (fst q), h q)) ps) = Some (h p).
Proof.
  intros Hu Hin.
  apply lookup_unique_In.
  - unfold keys in *; rewrite map_map in *; simpl; exact Hu.
  - apply (in_map (fun q => (g (fst q), h q)) _ _ Hin).
Qed.

(** ** Plain data and its equality *)

(** The decoded form of a JSON text: [None], booleans, integers, strings,
    lists, and mappings with distinct keys. *)
Fixpoint json_like (v : value) : bool :=
  match v with
  | VNone | VBool _ | VInt _ | VStr _ => true
  | VList l => forallb json_like l
  | VDict d => uniqueb (keys d) && forallb (fun kv => json_like (snd kv)) d
  | _ => false
  end.

Lemma all_eq_refl l :
  Forall (fun x => py_eq x x = Return true) l -> all_eq py_eq l l = Return true.
Proof.
  induction 1 as [|x l Hx _ IH]; simpl; [reflexivity|].
  rewrite Hx; exact IH.
Qed.

Lemma all_items_refl d d1 :
  (forall k x, In (k, x) d1 -> lookup k d = Some x) ->
  Forall (fun kv => py_eq (snd kv) (snd kv) = Return true) d1 ->
  all_items py_eq d1 d = Return true.
Proof.
  intros Hl H; induction H as [|[k x] d1 Hx _ IH]; simpl; [reflexivity|].
  rewrite (Hl k x (or_introl eq_refl)); simpl in Hx; rewrite Hx.
  apply IH; intros; apply Hl; right; assumption.
Qed.

(** On plain data [==] is reflexive. *)
Lemma py_eq_refl_json v : json_like v = true -> py_eq v v = Return true.
Proof.
  induction v using value_nested_ind; simpl; intros Hj; try discriminate;
    try reflexivity.
  - rewrite Z.eqb_refl; reflexivity.
  - rewrite Z.eqb_refl; reflexivity.
  - rewrite String.eqb_refl; reflexivity.
  - rewrite Nat.eqb_refl; simpl.
    apply all_eq_refl.
    rewrite forallb_forall in Hj; rewrite Forall_forall in *.
    intros x Hin; apply H; [assumption | apply Hj; assumption].
  - rewrite Nat.eqb_refl; simpl.
    apply andb_true_iff in Hj; destruct Hj as [Hu Hj].
    apply all_items_refl.
    + intros k x Hin; apply lookup_unique_In; assumption.
    + rewrite forallb_forall in Hj; rewrite Forall_forall in *.
      intros x Hin; apply H; [assumption | apply Hj; assumption].
Qed.

Definition builtin_names : list string :=
  ["NoneType"; "bool"; "int"; "str"; "list"; "dict"; "ndarray"; "int64"].

Lemma json_like_type_name v :
  json_like v = true -> mem_string (type_name v) builtin_names = true.
Proof. destruct v; simpl; intros H; try discriminate; reflexivity. Qed.

(** ** Schemas that serialise

    An item type is [int], [str], [dict] or a record type whose declared
    fields are all [REQUIRED(T)] or [REPEAT(T)] over item types.  A record
    type is no built-in class, and its field names are distinct and not the
    reserved key. *)
Fixpoint self_describing (t : tpe) : bool :=
  match t with
  | Builtin n _ => mem_string n ["int"; "str"; "dict"]
  | Class n _ props =>
      negb (mem_string n builtin_names)
      && uniqueb (keys props)
      && negb (mem_string "__ctx__" (keys props))
      && forallb (fun p : string * tpe =>
                    match snd p with
                    | REQUIRED t' | REPEAT t' => self_describing t'
                    | _ => false
                    end) props
  | _ => false
  end.

Definition self_describing_field (f : tpe) : bool :=
  match f with
  | REQUIRED t | REPEAT t => self_describing t
  | _ => false
  end.

(** ** Running a sequence *)

Lemma bind_Return {A B} (m : M A) (k : A -> M B) c a c' :
  m c = (Return a, c') -> bind m k c = k a c'.
Proof. intros H; unfold bind; rewrite H; reflexivity. Qed.

Lemma bind_Raise {A B} (m : M A) (k : A -> M B) c e c' :
  m c = (Raise e, c') -> bind m k c = (Raise e, c').
Proof. intros H; unfold bind; rewrite H; reflexivity. Qed.

Lemma bind_Return_inv {A B} (m : M A) (k : A -> M B) c b c' :
  bind m k c = (Return b, c') ->
  exists a c1, m c = (Return a, c1) /\ k a c1 = (Return b, c').
Proof.
  unfold bind; destruct (m c) as [[a|e] c1]; intros H; [|discriminate].
  exists a, c1; split; [reflexivity | assumption].
Qed.

Lemma error_then_no_Return {A} msg (k : M A) c a c' :
  raise_exceptions c = true ->
  bind (error msg) (fun _ => k) c = (Return a, c') -> False.
Proof.
  intros Hm H; unfold bind, error in H; rewrite Hm in H; discriminate.
Qed.

(** ** The frame stack and the mode across a computation *)

(** [same_frame c c']: [c'] has the stack and the mode of [c]. *)
Definition same_frame (c c' : InitContext) : Prop :=
  _stack c' = _stack c /\ raise_exceptions c' = raise_exceptions c.

(** A computation is balanced when, whatever its outcome, it leaves the
    stack and the mode as it found them. *)
Definition balanced {A} (m : M A) : Prop :=
  forall c, same_frame c (snd (m c)).

Lemma same_frame_refl c : same_frame c c.
Proof. split; reflexivity. Qed.

Lemma same_frame_trans c1 c2 c3 :
  same_frame c1 c2 -> same_frame c2 c3 -> same_frame c1 c3.
Proof. intros [H1 H2] [H3 H4]; split; congruence. Qed.

Lemma balanced_ret {A} (a : A) : balanced (ret a).
Proof. intro c; apply same_frame_refl. Qed.

Lemma balanced_raise {A} e : balanced (@raise A e).
Proof. intro c; apply same_frame_refl. Qed.

Lemma balanced_lift {A} (r : outcome A) : balanced (lift r).
Proof. intro c; apply same_frame_refl. Qed.

Lemma balanced_error msg : balanced (error msg).
Proof.
  intro c; unfold error; destruct (raise_exceptions c) eqn:E; split; simpl; auto.
Qed.

Lemma balanced_bind {A B} (m : M A) (k : A -> M B) :
  balanced m -> (forall a, balanced (k a)) -> balanced (bind m k).
Proof.
  intros Hm Hk c; unfold bind.
  specialize (Hm c); destruct (m c) as [[a|e] c1]; simpl in *; auto.
  eapply same_frame_trans; [exact Hm | apply Hk].
Qed.

Lemma balanced_except {A} (body handler : M A) :
  balanced body -> balanced handler -> balanced (except_ConfigException body handler).
Proof.
  intros Hb Hh c; unfold except_ConfigException.
  specialize (Hb c); destruct (body c) as [[a|e] c1]; simpl in *; auto.
  destruct e; simpl; auto.
  eapply same_frame_trans; [exact Hb | apply Hh].
Qed.

(** The heart of [step_into]: the pushed frame is gone after the scope, on a
    return and on an exception alike. *)
Lemma balanced_step_into {A} obj name (body : M A) :
  balanced body -> balanced (step_into obj name body).
Proof.
  intros Hb c; unfold step_into, try_finally, bind, _push, _pop.
  match goal with |- context [body ?c0] => specialize (Hb c0) end.
  destruct (body _) as [r c1]; simpl in *.
  destruct Hb as [Hs Hm]; simpl in *.
  rewrite Hs.
  destruct (_stack c ++ [(obj, name)])%list eqn:E.
  - destruct (_stack c); discriminate.
  - rewrite <- E, removelast_last.
    destruct r; split; simpl; auto.
Qed.

Lemma balanced_for_each {A B} (f : A -> M B) l :
  (forall x, In x l -> balanced (f x)) -> balanced (for_each f l).
Proof.
  induction l as [|x l IH]; intros H; simpl.
  - apply balanced_ret.
  - apply balanced_bind; [apply H; left; reflexivity|].
    intros y; apply balanced_bind; [apply IH; intros; apply H; right; assumption|].
    intros; apply balanced_ret.
Qed.

Lemma balanced_for_each_enumerate {A B} (f : nat -> A -> M B) l :
  (forall i x, In x l -> balanced (f i x)) ->
  forall i, balanced (for_each_enumerate f i l).
Proof.
  induction l as [|x l IH]; intros H i; simpl.
  - apply balanced_ret.
  - apply balanced_bind; [apply H; left; reflexivity|].
    intros y; apply balanced_bind; [apply IH; intros; apply H; right; assumption|].
    intros; apply balanced_ret.
Qed.

Lemma balanced_for_fold {A S} (f : A -> S -> M S) l :
  (forall x s, In x l -> balanced (f x s)) ->
  forall s, balanced (for_fold f l s).
Proof.
  induction l as [|x l IH]; intros H s; simpl.
  - apply balanced_ret.
  - apply balanced_bind; [apply H; left; reflexivity|].
    intros s'; apply IH; intros; apply H; right; assumption.
Qed.

(** ** Frames pushed and popped *)

Lemma step_into_run {A} obj name (body : M A) ctx r c' :
  body (mkInitContext (_stack ctx ++ [(obj, name)]) (_errors ctx) (raise_exceptions ctx))
  = (r, c') ->
  _stack c' <> [] ->
  step_into obj name body ctx
  = (r, mkInitContext (removelast (_stack c')) (_errors c') (raise_exceptions c')).
Proof.
  intros Hb Hne.
  unfold step_into, try_finally, bind, _push, _pop; simpl.
  rewrite Hb; simpl.
  destruct (_stack c'); [contradiction|].
  destruct r; reflexivity.
Qed.


Definition with_frame (frame : string * string) (c : InitContext) : InitContext :=
  mkInitContext (_stack c ++ [frame]) (_errors c) (raise_exceptions c).

Lemma step_into_pure {A} obj name (body : M A) c r :
  body (with_frame (obj, name) c) = (r, with_frame (obj, name) c) ->
  step_into obj name body c = (r, c).
Proof.
  intros H.
  unfold step_into, try_finally, bind, _push, _pop; simpl.
  unfold with_frame in H; rewrite H; simpl.
  destruct (_stack c ++ [(obj, name)])%list eqn:E.
  - destruct (_stack c); discriminate.
  - rewrite <- E, removelast_last; destruct c, r; reflexivity.
Qed.

Lemma step_into_inv {A} obj name (body : M A) c r c' :
  balanced body ->
  step_into obj name body c = (r, c') ->
  exists c1,
    body (with_frame (obj, name) c) = (r, c1)
    /\ c' = mkInitContext (removelast (_stack c1)) (_errors c1) (raise_exceptions c1).
Proof.
  intros Hb H.
  destruct (body (with_frame (obj, name) c)) as [r0 c1] eqn:E.
  pose proof (Hb (with_frame (obj, name) c)) as [Hs _]; rewrite E in Hs; simpl in Hs.
  assert (Hne : _stack c1 <> []).
  { rewrite Hs; destruct (_stack c); discriminate. }
  rewrite (step_into_run obj name body c r0 c1 E Hne) in H.
  exists c1; inversion H; subst; split; reflexivity.
Qed.

Lemma pop_with_frame frame c :
  mkInitContext (removelast (_stack (with_frame frame c)))
                (_errors (with_frame frame c))
                (raise_exceptions (with_frame frame c)) = c.
Proof. destruct c; simpl; rewrite removelast_last; reflexivity. Qed.

(** ** Outcomes do not depend on the trace

    Two runs of one computation from contexts of the same mode end alike: the
    same returned value, or the same exception up to the message of a
    [ConfigException] (which carries the rendered trace). *)

Definition is_ConfigException (e : exn) : bool :=
  match e with ConfigException _ => true | _ => false end.

Definition alike {A} (r1 r2 : outcome A) : Prop :=
  match r1, r2 with
  | Return a, Return b => a = b
  | Raise e1, Raise e2 =>
      (is_ConfigException e1 = true /\ is_ConfigException e2 = true) \/ e1 = e2
  | _, _ => False
  end.

Definition mode_only {A} (m : M A) : Prop :=
  forall c1 c2, raise_exceptions c1 = raise_exceptions c2 ->
                alike (fst (m c1)) (fst (m c2)).

Lemma alike_refl {A} (r : outcome A) : alike r r.
Proof. destruct r; simpl; auto. Qed.

Lemma mode_only_ret {A} (a : A) : mode_only (ret a).
Proof. intros c1 c2 _; reflexivity. Qed.

Lemma mode_only_raise {A} e : mode_only (@raise A e).
Proof. intros c1 c2 _; simpl; auto. Qed.

Lemma mode_only_lift {A} (r : outcome A) : mode_only (lift r).
Proof. intros c1 c2 _; apply alike_refl. Qed.

Lemma mode_only_error msg : mode_only (error msg).
Proof.
  intros c1 c2 H; unfold error; rewrite H.
  destruct (raise_exceptions c2); simpl; auto.
Qed.

Lemma mode_only_bind {A B} (m : M A) (k : A -> M B) :
  mode_only m -> balanced m -> (forall a, mode_only (k a)) -> mode_only (bind m k).
Proof.
  intros Hm Hb Hk c1 c2 H; unfold bind.
  specialize (Hm c1 c2 H).
  pose proof (Hb c1) as [_ H1]; pose proof (Hb c2) as [_ H2].
  destruct (m c1) as [[a1|e1] c1'], (m c2) as [[a2|e2] c2']; simpl in *;
    try contradiction; auto.
  subst a2; apply Hk; congruence.
Qed.

Lemma mode_only_except {A} (body handler : M A) :
  mode_only body -> balanced body -> mode_only handler ->
  mode_only (except_ConfigException body handler).
Proof.
  intros Hm Hb Hh c1 c2 H; unfold except_ConfigException.
  specialize (Hm c1 c2 H).
  pose proof (Hb c1) as [_ H1]; pose proof (Hb c2) as [_ H2].
  destruct (body c1) as [[a1|e1] c1'], (body c2) as [[a2|e2] c2']; simpl in *;
    try contradiction; auto.
  assert (Hc : raise_exceptions c1' = raise_exceptions c2') by congruence.
  destruct Hm as [[He1 He2]|He].
  - destruct e1, e2; try discriminate; apply Hh; assumption.
  - subst e2; destruct e1; simpl; auto; apply Hh; assumption.
Qed.

Lemma step_into_balanced_body {A} obj name (body : M A) c :
  balanced body ->
  fst (step_into obj name body c)
  = fst (body (mkInitContext (_stack c ++ [(obj, name)]) (_errors c) (raise_exceptions c))).
Proof.
  intros Hb; unfold step_into, try_finally, bind, _push, _pop; simpl.
  match goal with |- context [body ?c0] => specialize (Hb c0) end.
  destruct (body _) as [r c1]; simpl in *.
  destruct Hb as [Hs _]; simpl in Hs.
  destruct (_stack c1) eqn:E; [|reflexivity].
  destruct (_stack c); discriminate.
Qed.

Lemma mode_only_step_into {A} obj name (body : M A) :
  mode_only body -> balanced body -> mode_only (step_into obj name body).
Proof.
  intros Hm Hb c1 c2 H.
  rewrite !step_into_balanced_body by assumption.
  apply Hm; assumption.
Qed.

Lemma mode_only_for_each {A B} (f : A -> M B) l :
  (forall x, In x l -> mode_only (f x)) ->
  (forall x, In x l -> balanced (f x)) ->
  mode_only (for_each f l).
Proof.
  induction l as [|x l IH]; intros H Hb; simpl.
  - apply mode_only_ret.
  - apply mode_only_bind; [apply H; left; reflexivity
                          | apply Hb; left; reflexivity |].
    intros y; apply mode_only_bind.
    + apply IH; intros; [apply H | apply Hb]; right; assumption.
    + apply balanced_for_each; intros; apply Hb; right; assumption.
    + intros; apply mode_only_ret.
Qed.

Lemma mode_only_for_each_enumerate {A B} (f : nat -> A -> M B) l :
  (forall i x, In x l -> mode_only (f i x)) ->
  (forall i x, In x l -> balanced (f i x)) ->
  forall i, mode_only (for_each_enumerate f i l).
Proof.
  induction l as [|x l IH]; intros H Hb i; simpl.
  - apply mode_only_ret.
  - apply mode_only_bind; [apply H; left; reflexivity
                          | apply Hb; left; reflexivity |].
    intros y; apply mode_only_bind.
    + apply IH; intros; [apply H | apply Hb]; right; assumption.
    + apply balanced_for_each_enumerate; intros; apply Hb; right; assumption.
    + intros; apply mode_only_ret.
Qed.

Lemma mode_only_for_fold {A S} (f : A -> S -> M S) l :
  (forall x s, In x l -> mode_only (f x s)) ->
  (forall x s, In x l -> balanced (f x s)) ->
  forall s, mode_only (for_fold f l s).
Proof.
  induction l as [|x l IH]; intros H Hb s; simpl.
  - apply mode_only_ret.
  - apply mode_only_bind; [apply H; left; reflexivity
                          | apply Hb; left; reflexivity |].
    intros s'; apply IH; intros; [apply H | apply Hb]; right; assumption.
Qed.

Create HintDb balanced.
#[local] Hint Resolve balanced_ret balanced_raise balanced_lift balanced_error
  mode_only_ret mode_only_raise mode_only_lift mode_only_error : balanced.

Section Properties.

Variable R : Rendering.

Lemma balanced_check_keys ks vk : balanced (check_keys R ks vk).
Proof.
  induction ks as [|k ks IH]; simpl.
  - apply balanced_ret.
  - destruct (mem_string k vk); [exact IH | apply balanced_raise].
Qed.

Lemma balanced_EITHER_choose types fix_values v cs :
  balanced (EITHER_choose R types fix_values v cs).
Proof.
  unfold EITHER_choose.
  apply balanced_bind.
  - apply balanced_for_each; intros; apply balanced_lift.
  - intros truths.
    destruct (negb _).
    + destruct (select _ _).
      * apply balanced_bind; [apply balanced_lift|].
        intros; apply balanced_bind; auto with balanced.
      * destruct (Nat.leb _ _); [|apply balanced_raise].
        apply balanced_bind; auto with balanced.
    + destruct cs; apply balanced_ret.
Qed.

Lemma balanced_construct t : forall v, balanced (construct R t v).
Proof.
  induction t using tpe_nested_ind; intros v; simpl.
  - destruct (class_eqb _ _); [apply balanced_ret|].
    apply balanced_bind; auto with balanced.
  - destruct (class_eqb _ _); [apply balanced_ret|].
    destruct v; try (apply balanced_bind; auto with balanced).
    + apply balanced_step_into, balanced_for_fold.
      intros p s Hin.
      apply balanced_step_into, balanced_bind; auto with balanced.
      rewrite Forall_forall in H; apply H; assumption.
    + intros; apply balanced_bind; [apply balanced_check_keys|auto with balanced].
  - apply IHt.
  - destruct (is_None v); [apply balanced_ret | apply IHt].
  - apply balanced_bind; [|intros; apply balanced_EITHER_choose].
    apply balanced_for_each; intros t Hin.
    apply balanced_except; [|apply balanced_ret].
    rewrite Forall_forall in H; apply H; assumption.
  - destruct (is_None v); [apply balanced_ret|].
    assert (Hit : balanced
      (match iter v with
       | Some listlike =>
           constructed_list <-
             for_each_enumerate
               (fun i el =>
                  step_into "List" ("at element " ++ str_value R (VInt (Z.of_nat i)))
                    (construct R t el)) 0 listlike ;;
           ret (VList constructed_list)
       | None =>
           error ("Expected a listlike type, but got type " ++ type_name v ++ ".") ;;;
           ret VNone
       end)).
    { destruct (iter v).
      - apply balanced_bind; [|intros; apply balanced_ret].
        apply balanced_for_each_enumerate; intros.
        apply balanced_step_into, IHt.
      - apply balanced_bind; auto with balanced. }
    destruct v; try exact Hit.
    apply balanced_bind; auto with balanced.
  - destruct (negb (is_class t)); [apply balanced_raise|].
    destruct (issubclass _ _); [apply balanced_ret|].
    apply balanced_bind; auto with balanced.
Qed.

Lemma balanced_init cls kwargs : balanced (__init__ R cls kwargs).
Proof.
  unfold __init__, init_fields.
  apply balanced_bind.
  - apply balanced_step_into, balanced_for_fold; intros p s _.
    apply balanced_step_into, balanced_bind; [apply balanced_construct|].
    intros; apply balanced_ret.
  - intros; apply balanced_bind; [apply balanced_check_keys|].
    intros; apply balanced_ret.
Qed.

Lemma mode_only_check_keys ks vk : mode_only (check_keys R ks vk).
Proof.
  induction ks as [|k ks IH]; simpl.
  - apply mode_only_ret.
  - destruct (mem_string k vk); [exact IH | apply mode_only_raise].
Qed.

Lemma mode_only_EITHER_choose types fix_values v cs :
  mode_only (EITHER_choose R types fix_values v cs).
Proof.
  unfold EITHER_choose.
  apply mode_only_bind.
  - apply mode_only_for_each; intros; auto with balanced.
  - apply balanced_for_each; intros; apply balanced_lift.
  - intros truths.
    destruct (negb _).
    + destruct (select _ _).
      * apply mode_only_bind; auto with balanced.
        intros; apply mode_only_bind; auto with balanced.
      * destruct (Nat.leb _ _); [|apply mode_only_raise].
        apply mode_only_bind; auto with balanced.
    + destruct cs; apply mode_only_ret.
Qed.

Lemma mode_only_construct t : forall v, mode_only (construct R t v).
Proof.
  induction t using tpe_nested_ind; intros v; simpl.
  - destruct (class_eqb _ _); [apply mode_only_ret|].
    apply mode_only_bind; auto with balanced.
  - destruct (class_eqb _ _); [apply mode_only_ret|].
    destruct v; try (apply mode_only_bind; auto with balanced).
    + apply mode_only_step_into.
      * apply mode_only_for_fold; intros p s Hin.
        -- apply mode_only_step_into.
           ++ apply mode_only_bind; auto with balanced.
              ** rewrite Forall_forall in H; apply H; assumption.
              ** apply balanced_construct.
           ++ apply balanced_bind; [apply balanced_construct | auto with balanced].
        -- apply balanced_step_into, balanced_bind;
             [apply balanced_construct | auto with balanced].
      * apply balanced_for_fold; intros p s Hin.
        apply balanced_step_into, balanced_bind;
          [apply balanced_construct | auto with balanced].
    + apply balanced_step_into, balanced_for_fold; intros p s Hin.
      apply balanced_step_into, balanced_bind;
        [apply balanced_construct | auto with balanced].
    + intros; apply mode_only_bind;
        [apply mode_only_check_keys | apply balanced_check_keys | auto with balanced].
  - apply IHt.
  - destruct (is_None v); [apply mode_only_ret | apply IHt].
  - apply mode_only_bind; [| |intros; apply mode_only_EITHER_choose].
    + apply mode_only_for_each; intros t Hin.
      * apply mode_only_except; [| apply balanced_construct | apply mode_only_ret].
        rewrite Forall_forall in H; apply H; assumption.
      * apply balanced_except; [apply balanced_construct | apply balanced_ret].
    + apply balanced_for_each; intros t Hin.
      apply balanced_except; [apply balanced_construct | apply balanced_ret].
  - destruct (is_None v); [apply mode_only_ret|].
    assert (Hit : mode_only
      (match iter v with
       | Some listlike =>
           constructed_list <-
             for_each_enumerate
               (fun i el =>
                  step_into "List" ("at element " ++ str_value R (VInt (Z.of_nat i)))
                    (construct R t el)) 0 listlike ;;
           ret (VList constructed_list)
       | None =>
           error ("Expected a listlike type, but got type " ++ type_name v ++ ".") ;;;
           ret VNone
       end)).
    { destruct (iter v).
      - apply mode_only_bind; [| |intros; apply mode_only_ret].
        + apply mode_only_for_each_enumerate; intros.
          * apply mode_only_step_into; [apply IHt | apply balanced_construct].
          * apply balanced_step_into, balanced_construct.
        + apply balanced_for_each_enumerate; intros.
          apply balanced_step_into, balanced_construct.
      - apply mode_only_bind; auto with balanced. }
    destruct v; try exact Hit.
    apply mode_only_bind; auto with balanced.
  - destruct (negb (is_class t)); [apply mode_only_raise|].
    destruct (issubclass _ _); [apply mode_only_ret|].
    apply mode_only_bind; auto with balanced.
Qed.

(** ** The trace frames of [step_into] *)

(** C8: the frame pushed by [step_into] is removed on every exit path
    of the scope: whatever the body's outcome (a returned value or an
    exception) the stack after the scope is the stack the body left, minus its
    last frame.  Hence a construction call, at any depth of recursion and
    whether it returns or raises, in accumulate mode or in raise mode, leaves
    the frame stack exactly as it was before the call; so do [__init__] and
    [construct] called without a context. *)
Theorem step_into_frame_removed :
  (forall (A : Type) obj name (body : M A) ctx,
      _stack (snd (step_into obj name body ctx))
      = removelast (_stack (snd (body (snd (_push (obj, name) ctx))))))
  /\ (forall t v ctx, _stack (snd (construct R t v ctx)) = _stack ctx)
  /\ (forall cls kwargs ctx, _stack (snd (__init__ R cls kwargs ctx)) = _stack ctx)
  /\ (forall f v, _stack (snd (ConfigField_construct R f v None)) = []).
Proof.
  repeat split.
  - intros A obj name body ctx.
    unfold step_into, try_finally, bind; simpl.
    destruct (body _) as [r c1]; simpl.
    unfold _pop.
    destruct (_stack c1) eqn:E; simpl; [rewrite E; reflexivity|].
    destruct r; reflexivity.
  - intros t v ctx; apply (balanced_construct t v ctx).
  - intros cls kwargs ctx; apply (balanced_init cls kwargs ctx).
  - intros f v; simpl.
    apply (balanced_construct f v (InitContext_new false)).
Qed.

(** ** [REPEAT] on an absent value *)

(** C10: [REPEAT(T)] constructs the absent value to an absent result,
    records no error and constructs nothing (the context is untouched), although
    its [default()] is the empty list; the empty list comes in only where
    [_set_property] replaces an absent constructed value by the default. *)
Theorem REPEAT_None_is_None :
  forall t,
    (forall ctx, construct R (REPEAT t) VNone ctx = (Return VNone, ctx))
    /\ default (REPEAT t) = VList []
    /\ (forall name attrs ctx,
           set_attr R (REPEAT t) name VNone attrs ctx
           = (Return (dict_set ("_" ++ name) (VList []) attrs), ctx))
    /\ (forall name cls attrs ctx,
           _set_property R (VObj (Class cls [] [(name, REPEAT t)]) attrs) name VNone ctx
           = (Return (VObj (Class cls [] [(name, REPEAT t)])
                        (dict_set ("_" ++ name) (VList []) attrs)),
              match ctx with Some c => c | None => InitContext_new true end)).
Proof.
  intros t; split; [|split; [|split]].
  - reflexivity.
  - reflexivity.
  - intros name attrs ctx. reflexivity.
  - intros name cls attrs ctx.
    unfold _set_property; simpl.
    rewrite String.eqb_refl.
    destruct ctx; reflexivity.
Qed.

(** ** [valid] *)

(** C9, as amended: [valid(v)] returns true exactly when the construction
    under a fresh raise-mode context raises nothing, returns false exactly
    when it raises a [ConfigException], and lets every other exception of the
    construction through; it never propagates a [ConfigException]. *)
Theorem valid_spec :
  forall f v,
    let r := fst (construct R f v (InitContext_new true)) in
    (valid R f v = Return true <-> exists x, r = Return x)
    /\ (valid R f v = Return false <-> exists msg, r = Raise (ConfigException msg))
    /\ (forall e, valid R f v = Raise e <->
                  r = Raise e /\ forall msg, e <> ConfigException msg).
Proof.
  intros f v; unfold valid, ConfigField_construct; simpl.
  destruct (construct R f v (InitContext_new true)) as [[x|e] c]; simpl.
  - split; [|split].
    + split; eauto.
    + split; [discriminate | intros [msg H]; discriminate].
    + intros e; split; [discriminate | intros [H _]; discriminate].
  - split; [|split].
    + split; [destruct e; discriminate | intros [x H]; discriminate].
    + destruct e; split; eauto; try discriminate; intros [m H]; discriminate.
    + intros e'; split.
      * destruct e; try discriminate;
          intros H; inversion H; subst; (split; [reflexivity | discriminate]).
      * intros [H1 H2]; inversion H1; subst.
        destruct e'; try reflexivity.
        exfalso; apply (H2 msg); reflexivity.
Qed.

(** ** [REPEAT] on strings and on sequences *)

(** [v] is valid for [f] under the mode [mode]: constructing it from a fresh
    context of that mode raises nothing.  For the raise mode this is
    [f.valid(v)]. *)
Definition valid_in (mode : bool) (f : tpe) (v : value) : bool :=
  match fst (construct R f v (InitContext_new mode)) with
  | Return _ => true
  | Raise _ => false
  end.

Lemma valid_in_valid f v : valid_in true f v = true <-> valid R f v = Return true.
Proof.
  unfold valid_in, valid, ConfigField_construct.
  destruct (construct R f v (InitContext_new true)) as [[x|e] c]; simpl.
  - split; reflexivity.
  - split; [discriminate | destruct e; discriminate].
Qed.

(** The frame of the [i]-th element. *)
Definition element_frame (i : nat) : string * string :=
  ("List", "at element " ++ str_value R (VInt (Z.of_nat i))).

Lemma step_into_valid_element T v i ctx :
  valid_in (raise_exceptions ctx) T v = true ->
  exists x c c',
    _stack c = (_stack ctx ++ [element_frame i])%list
    /\ raise_exceptions c = raise_exceptions ctx
    /\ construct R T v c = (Return x, c')
    /\ fst (construct R T v (InitContext_new (raise_exceptions ctx))) = Return x
    /\ exists ctx1,
        step_into (fst (element_frame i)) (snd (element_frame i)) (construct R T v) ctx
        = (Return x, ctx1)
        /\ same_frame ctx ctx1.
Proof.
  intros Hv.
  set (c := mkInitContext (_stack ctx ++ [element_frame i]) (_errors ctx)
                          (raise_exceptions ctx)).
  pose proof (mode_only_construct T v c (InitContext_new (raise_exceptions ctx))
                eq_refl) as Ha.
  pose proof (balanced_construct T v c) as [Hs Hm].
  unfold valid_in in Hv.
  destruct (construct R T v (InitContext_new (raise_exceptions ctx))) as [[x0|e0] c0];
    simpl in *; [|discriminate].
  destruct (construct R T v c) as [[x|e] c'] eqn:E; simpl in *; [|contradiction].
  subst x0.
  exists x, c, c'.
  split; [reflexivity|]. split; [reflexivity|].
  split; [exact E|]. split; [reflexivity|].
  eexists; split.
  - apply step_into_run; [exact E|].
    rewrite Hs; destruct (_stack ctx); discriminate.
  - split; simpl; [|assumption].
    rewrite Hs, removelast_last; reflexivity.
Qed.

Lemma REPEAT_loop T l :
  forall i ctx,
    (forall v, In v l -> valid_in (raise_exceptions ctx) T v = true) ->
    exists l' ctx',
      for_each_enumerate
        (fun i el => step_into "List" ("at element " ++ str_value R (VInt (Z.of_nat i)))
                       (construct R T el)) i l ctx
      = (Return l', ctx')
      /\ same_frame ctx ctx'
      /\ List.length l' = List.length l
      /\ forall j v, nth_error l j = Some v ->
           exists x c c',
             _stack c = (_stack ctx ++ [element_frame (i + j)])%list
             /\ raise_exceptions c = raise_exceptions ctx
             /\ construct R T v c = (Return x, c')
             /\ fst (construct R T v (InitContext_new (raise_exceptions ctx))) = Return x
             /\ nth_error l' j = Some x.
Proof.
  induction l as [|el l IH]; intros i ctx Hall; simpl.
  - exists [], ctx; repeat split; try reflexivity.
    intros [|j] v H; discriminate.
  - destruct (step_into_valid_element T el i ctx (Hall el (or_introl eq_refl)))
      as [x [c [c' [Hs [Hm [Hc [Hf [ctx1 [Hstep [Hs1 Hm1]]]]]]]]]].
    simpl in Hstep.
    rewrite (bind_Return _ _ _ _ _ Hstep).
    destruct (IH (S i) ctx1) as [l' [ctx' [Hloop [[Hs' Hm'] [Hlen Hnth]]]]].
    { intros v Hin; rewrite Hm1; apply Hall; right; assumption. }
    rewrite (bind_Return _ _ _ _ _ Hloop); unfold ret.
    exists (x :: l'), ctx'; repeat split; try congruence.
    + simpl; rewrite Hlen; reflexivity.
    + intros [|j] v Hj; simpl in Hj.
      * inversion Hj; subst v.
        exists x, c, c'; rewrite Nat.add_0_r; repeat split; assumption.
      * destruct (Hnth j v Hj) as [y [d [d' [H1 [H2 [H3 [H4 H5]]]]]]].
        exists y, d, d'; repeat split; try congruence; try assumption.
        rewrite <- Nat.add_succ_comm, <- Hs1; assumption.
Qed.


(** ** Unknown keys *)

(** The first key of [ks] that is not among [vk]. *)
Definition first_unknown_key (ks vk : list string) : option string :=
  find (fun k => negb (mem_string k vk)) ks.

Lemma check_keys_first_unknown ks vk c :
  check_keys R ks vk c
  = match first_unknown_key ks vk with
    | Some k0 => (Raise (ValueError (unknown_key_msg R k0 vk)), c)
    | None => (Return tt, c)
    end.
Proof.
  unfold first_unknown_key.
  induction ks as [|k ks IH]; simpl; [reflexivity|].
  destruct (mem_string k vk); simpl; [exact IH | reflexivity].
Qed.

Lemma first_unknown_key_exists ks vk k :
  In k ks -> ~ In k vk ->
  exists k0, first_unknown_key ks vk = Some k0 /\ In k0 ks /\ ~ In k0 vk.
Proof.
  intros Hin Hnot.
  unfold first_unknown_key.
  destruct (find _ ks) as [k0|] eqn:E.
  - exists k0; split; [reflexivity|].
    apply find_some in E; destruct E as [H1 H2]; split; [assumption|].
    intros H; apply mem_string_In in H; rewrite H in H2; discriminate.
  - exfalso. apply (find_none _ _ E) in Hin.
    apply negb_false_iff, mem_string_In in Hin; contradiction.
Qed.


(** ** Parsing from text *)

(** C4, as amended: [from_json] constructs under a fresh accumulate-mode
    context.  When the construction itself raises (an unknown key, for one),
    that exception propagates and nothing is printed.  When it completes with
    at least one recorded error, the report (the count of errors and the joined
    traces) is printed and a [ValueError] instance is handed back instead of the
    object; when it completes with no recorded error, the object is handed
    back.  In no case is an object handed back with errors on record. *)
Theorem from_json_spec :
  forall cls kwargs,
    let run := __init__ R cls kwargs (InitContext_new false) in
    raise_exceptions (snd run) = false
    /\ (forall e, fst run = Raise e ->
                  from_json R cls (VDict kwargs) = (None, Raise e, snd run))
    /\ (forall obj, fst run = Return obj -> n_errors (snd run) <> 0 ->
                    from_json R cls (VDict kwargs)
                    = (Some ("There occurred "
                             ++ str_value R (VInt (Z.of_nat (n_errors (snd run))))
                             ++ " errors " ++ nl
                             ++ String.concat nl (_errors (snd run))),
                       Return (NotLoaded (ValueError ("Could not load " ++ class_name cls))),
                       snd run))
    /\ (forall obj, fst run = Return obj -> n_errors (snd run) = 0 ->
                    from_json R cls (VDict kwargs) = (None, Return (Loaded obj), snd run))
    /\ (forall out obj ctx,
           from_json R cls (VDict kwargs) = (out, Return (Loaded obj), ctx) ->
           n_errors ctx = 0 /\ out = None /\ fst run = Return obj).
Proof.
  intros cls kwargs run.
  assert (Hmode : raise_exceptions (snd run) = false).
  { apply (balanced_init cls kwargs (InitContext_new false)). }
  unfold from_json; fold run.
  destruct run as [[obj|e] c] eqn:E; simpl in *.
  - split; [assumption|]. split; [discriminate|].
    unfold print_report, report, errors_str.
    destruct (Nat.eqb (n_errors c) 0) eqn:En; simpl.
    + apply Nat.eqb_eq in En.
      split; [intros ? ? H; contradiction|].
      split; [intros o H _; inversion H; reflexivity|].
      intros out o ctx H; inversion H; subst; auto.
    + apply Nat.eqb_neq in En.
      split; [intros o H _; reflexivity|].
      split; [intros o _ H; contradiction|].
      intros out o ctx H; discriminate.
  - split; [assumption|]. split; [intros e' H; inversion H; reflexivity|].
    split; [discriminate|]. split; [discriminate|].
    intros out o ctx H; discriminate.
Qed.

(** ** Round trip through [to_builtin] *)

(** The stored value [x] of a field (or an item) of type [f] serialises to
    plain data from which [f] constructs [x] again, touching no context. *)
Definition rebuilds (f : tpe) (x : value) : Prop :=
  is_None x = false
  /\ py_eq x x = Return true
  /\ exists b, field_to_builtin f x = Return b
               /\ json_like b = true
               /\ forall c, construct R f b c = (Return x, c).

Definition item_ok (t : tpe) : Prop :=
  forall v ctx x ctx',
    json_like v = true -> raise_exceptions ctx = true ->
    construct R t v ctx = (Return x, ctx') ->
    ctx' = ctx /\ rebuilds t x.

Definition field_ok (f : tpe) : Prop :=
  forall v ctx x ctx',
    json_like v = true -> raise_exceptions ctx = true ->
    construct R f v ctx = (Return x, ctx') ->
    ctx' = ctx /\ rebuilds f (if is_None x then default f else x).

Lemma item_ok_Builtin n b :
  mem_string n ["int"; "str"; "dict"] = true -> item_ok (Builtin n b).
Proof.
  intros Hn v ctx x ctx' Hj Hm H; simpl in H.
  destruct (class_eqb (type_of v) (Builtin n b)) eqn:E.
  - inversion H; subst x ctx'; split; [reflexivity|].
    unfold class_eqb in E; simpl in E.
    apply andb_true_iff in E; destruct E as [_ E].
    apply String.eqb_eq in E; subst n.
    repeat split.
    + destruct v; simpl in *; try discriminate; reflexivity.
    + apply py_eq_refl_json; assumption.
    + exists v; repeat split; try assumption.
      * destruct v; simpl in *; try discriminate; reflexivity.
      * intros c; destruct v; simpl in *; try discriminate; reflexivity.
  - exfalso; eapply error_then_no_Return; eassumption.
Qed.

Lemma self_describing_not_REPEAT t x :
  self_describing t = true -> field_to_builtin t x = to_builtin x.
Proof. destruct t; simpl; intros H; try discriminate; reflexivity. Qed.

Lemma field_ok_REQUIRED t :
  self_describing t = true -> item_ok t -> field_ok (REQUIRED t).
Proof.
  intros Hsd Hit v ctx x ctx' Hj Hm H; simpl in H.
  destruct (Hit v ctx x ctx' Hj Hm H) as [Hc [Hn [He [b [Hb [Hjb Hr]]]]]].
  split; [assumption|]. rewrite Hn.
  repeat split; try assumption.
  exists b; repeat split; try assumption.
  simpl. rewrite <- (self_describing_not_REPEAT t x Hsd); assumption.
Qed.

Lemma REPEAT_elements_forward t :
  item_ok t ->
  forall items i ctx xs ctx',
    forallb json_like items = true -> raise_exceptions ctx = true ->
    for_each_enumerate
      (fun i el => step_into "List" ("at element " ++ str_value R (VInt (Z.of_nat i)))
                     (construct R t el)) i items ctx = (Return xs, ctx') ->
    ctx' = ctx /\ Forall (rebuilds t) xs.
Proof.
  intros Hit; induction items as [|el items IH]; intros i ctx xs ctx' Hj Hm H;
    simpl in H.
  - inversion H; subst; split; [reflexivity | constructor].
  - simpl in Hj; apply andb_true_iff in Hj; destruct Hj as [Hel Hj].
    apply bind_Return_inv in H; destruct H as [y [c1 [Hstep H]]].
    apply bind_Return_inv in H; destruct H as [ys [c2 [Hloop H]]].
    inversion H; subst xs ctx'; clear H.
    apply step_into_inv in Hstep; [|apply balanced_construct].
    destruct Hstep as [c3 [Hc Hpop]].
    apply Hit in Hc; [|assumption|assumption].
    destruct Hc as [Hc3 Hy]; subst c3.
    rewrite pop_with_frame in Hpop; subst c1.
    destruct (IH _ _ _ _ Hj Hm Hloop) as [Hc2 Hys].
    split; [assumption | constructor; assumption].
Qed.

Lemma REPEAT_elements_backward t xs :
  self_describing t = true ->
  Forall (rebuilds t) xs ->
  exists bs,
    omap to_builtin xs = Return bs
    /\ forallb json_like bs = true
    /\ forall i c,
        for_each_enumerate
          (fun i el => step_into "List" ("at element " ++ str_value R (VInt (Z.of_nat i)))
                         (construct R t el)) i bs c = (Return xs, c).
Proof.
  intros Hsd; induction 1 as [|x xs Hx _ IH].
  - exists []; repeat split.
  - destruct IH as [bs [Hbs [Hjs Hloop]]].
    destruct Hx as [_ [_ [b [Hb [Hjb Hr]]]]].
    rewrite (self_describing_not_REPEAT t x Hsd) in Hb.
    exists (b :: bs); repeat split.
    + simpl; rewrite Hb; simpl; rewrite Hbs; reflexivity.
    + simpl; rewrite Hjb, Hjs; reflexivity.
    + intros i c; simpl.
      rewrite (bind_Return _ _ c x c); [|apply step_into_pure, Hr].
      rewrite (bind_Return _ _ c xs c); [reflexivity | apply Hloop].
Qed.

Lemma json_like_iter v items :
  json_like v = true -> iter v = Some items -> forallb json_like items = true.
Proof.
  destruct v; simpl; intros Hj Hi; try discriminate; inversion Hi; subst.
  - clear; induction (list_ascii_of_string s); simpl; auto.
  - assumption.
  - clear; unfold keys; induction d; simpl; auto.
Qed.

Lemma field_ok_REPEAT t :
  self_describing t = true -> item_ok t -> field_ok (REPEAT t).
Proof.
  intros Hsd Hit v ctx x ctx' Hj Hm H.
  assert (Hempty : rebuilds (REPEAT t) (VList [])).
  { repeat split. exists (VList []); repeat split. }
  simpl in H.
  destruct (is_None v) eqn:En.
  { inversion H; subst; split; [reflexivity | exact Hempty]. }
  assert (Hgen :
    (match iter v with
     | Some listlike =>
         constructed_list <-
           for_each_enumerate
             (fun i el =>
                step_into "List" ("at element " ++ str_value R (VInt (Z.of_nat i)))
                  (construct R t el)) 0 listlike ;;
         ret (VList constructed_list)
     | None =>
         error ("Expected a listlike type, but got type " ++ type_name v ++ ".") ;;;
         ret VNone
     end) ctx = (Return x, ctx') ->
    ctx' = ctx /\ rebuilds (REPEAT t) (if is_None x then default (REPEAT t) else x)).
  { clear H. destruct (iter v) as [items|] eqn:Ei; intros H.
    - apply bind_Return_inv in H; destruct H as [xs [c1 [Hloop H]]].
      inversion H; subst x ctx'; clear H.
      pose proof (json_like_iter v items Hj Ei) as Hji.
      destruct (REPEAT_elements_forward t Hit items 0 ctx xs c1 Hji Hm Hloop)
        as [Hc Hxs].
      split; [assumption|]. simpl.
      destruct (REPEAT_elements_backward t xs Hsd Hxs) as [bs [Hbs [Hjs Hback]]].
      repeat split.
      + simpl. rewrite Nat.eqb_refl; simpl.
        apply all_eq_refl.
        eapply Forall_impl; [|exact Hxs].
        intros a [_ [Ha _]]; exact Ha.
      + exists (VList bs); repeat split.
        * simpl; rewrite Hbs; reflexivity.
        * exact Hjs.
        * intros c; simpl.
          rewrite (bind_Return _ _ c xs c); [reflexivity | apply Hback].
    - exfalso; eapply error_then_no_Return; eassumption. }
  destruct v; try (apply Hgen; exact H); try discriminate.
  exfalso; eapply error_then_no_Return; eassumption.
Qed.

(** One turn of the loop of [__init__] over the declared fields. *)
Definition field_step (kwargs : dict) (p : string * tpe) (attrs : dict) : M dict :=
  step_into (traceback_type (snd p)) (fst p)
    (set_attr R (snd p) (fst p) (dict_get kwargs (fst p)) attrs).

(** The value stored for the field [p] when it is constructed from [kwargs]
    under [c]. *)
Definition stored (kwargs : dict) (c : InitContext) (p : string * tpe) : value :=
  match fst (construct R (snd p) (dict_get kwargs (fst p))
               (with_frame (traceback_type (snd p), fst p) c)) with
  | Return x => if is_None x then default (snd p) else x
  | Raise _ => VNone
  end.

Lemma balanced_set_attr f name v attrs : balanced (set_attr R f name v attrs).
Proof.
  unfold set_attr; apply balanced_bind; [apply balanced_construct|].
  intros; apply balanced_ret.
Qed.

Lemma for_fold_set (F : string * tpe -> dict -> M dict) (X : string * tpe -> value) ps :
  forall attrs0 c,
    (forall p, In p ps ->
               forall a0, F p a0 c = (Return (dict_set ("_" ++ fst p) (X p) a0), c)) ->
    uniqueb (keys ps) = true ->
    (forall p, In p ps -> mem_string ("_" ++ fst p) (keys attrs0) = false) ->
    for_fold F ps attrs0 c
    = (Return (app attrs0 (map (fun p => ("_" ++ fst p, X p)) ps)), c).
Proof.
  induction ps as [|p ps IH]; intros attrs0 c HF Hu Hfresh.
  - simpl; rewrite app_nil_r; reflexivity.
  - cbn [for_fold].
    rewrite (bind_Return _ _ c _ c (HF p (or_introl eq_refl) attrs0)).
    rewrite dict_set_fresh by (apply Hfresh; left; reflexivity).
    cbn [keys map uniqueb] in Hu; apply andb_true_iff in Hu; destruct Hu as [Hp Hu].
    rewrite IH.
    + rewrite <- app_assoc; reflexivity.
    + intros q Hq; apply HF; right; assumption.
    + assumption.
    + intros q Hq. unfold keys; rewrite map_app, mem_string_app.
      fold (keys attrs0); rewrite (Hfresh q (or_intror Hq)).
      cbn [map fst mem_string existsb orb].
      rewrite orb_false_r.
      destruct (String.eqb (fst q) (fst p)) eqn:E.
      * apply String.eqb_eq in E.
        apply negb_true_iff in Hp.
        assert (Hm : mem_string (fst p) (map fst ps) = true).
        { apply mem_string_In; rewrite <- E; apply (in_map fst _ _ Hq). }
        rewrite Hm in Hp; discriminate.
      * simpl; rewrite E; reflexivity.
Qed.

Lemma json_like_dict_get kwargs k :
  json_like (VDict kwargs) = true -> json_like (dict_get kwargs k) = true.
Proof.
  simpl; intros H; apply andb_true_iff in H; destruct H as [_ H].
  unfold dict_get.
  induction kwargs as [|[n v] kwargs IH]; simpl in *; [reflexivity|].
  apply andb_true_iff in H; destruct H as [Hv H].
  destruct (String.eqb k n); [assumption | apply IH; assumption].
Qed.

Lemma fields_forward kwargs ps :
  json_like (VDict kwargs) = true ->
  Forall (fun p => field_ok (snd p)) ps ->
  forall attrs0 c attrs c',
    raise_exceptions c = true ->
    for_fold (field_step kwargs) ps attrs0 c = (Return attrs, c') ->
    c' = c
    /\ forall p, In p ps ->
         rebuilds (snd p) (stored kwargs c p)
         /\ forall a0,
             field_step kwargs p a0 c
             = (Return (dict_set ("_" ++ fst p) (stored kwargs c p) a0), c).
Proof.
  intros Hj Hok; induction Hok as [|p ps Hp _ IH]; intros attrs0 c attrs c' Hm H.
  - inversion H; subst; split; [reflexivity | intros p []].
  - cbn [for_fold] in H.
    apply bind_Return_inv in H; destruct H as [attrs1 [c1 [Hstep Hrest]]].
    unfold field_step in Hstep.
    apply step_into_inv in Hstep; [|apply balanced_set_attr].
    destruct Hstep as [c3 [Hset Hpop]].
    unfold set_attr in Hset.
    apply bind_Return_inv in Hset; destruct Hset as [x [c4 [Hc Hret]]].
    inversion Hret; subst attrs1 c3; clear Hret.
    destruct (Hp _ _ _ _ (json_like_dict_get kwargs (fst p) Hj)
                (Hm : raise_exceptions
                        (with_frame (traceback_type (snd p), fst p) c) = true) Hc)
      as [Hc4 Hreb].
    subst c4; rewrite pop_with_frame in Hpop; subst c1.
    destruct (IH _ _ _ _ Hm Hrest) as [Hc' Hps].
    split; [assumption|].
    assert (Hst : stored kwargs c p = if is_None x then default (snd p) else x).
    { unfold stored; rewrite Hc; reflexivity. }
    intros q [Hq|Hq]; [subst q | apply Hps; assumption].
    rewrite Hst; split; [assumption|].
    intros a0; unfold field_step.
    apply step_into_pure.
    unfold set_attr.
    rewrite (bind_Return _ _ _ _ _ Hc); reflexivity.
Qed.

Lemma construct_Class n b props v :
  construct R (Class n b props) v
  = if class_eqb (type_of v) (Class n b props) then ret v
    else match v with
         | VDict kwargs => __init__ R (Class n b props) kwargs
         | _ => error (expected_type_msg R (Class n b props) v) ;;; ret VNone
         end.
Proof. simpl; destruct (class_eqb _ _); destruct v; reflexivity. Qed.

Lemma check_keys_ok ks vk c :
  (forall k, In k ks -> mem_string k vk = true) ->
  check_keys R ks vk c = (Return tt, c).
Proof.
  induction ks as [|k ks IH]; intros H; simpl; [reflexivity|].
  rewrite (H k (or_introl eq_refl)); apply IH; intros; apply H; right; assumption.
Qed.

Lemma check_keys_Return_inv ks vk c c' :
  check_keys R ks vk c = (Return tt, c') -> c' = c.
Proof.
  rewrite check_keys_first_unknown; destruct (first_unknown_key ks vk);
    intros H; inversion H; reflexivity.
Qed.

Lemma compare_props_refl x : py_eq x x = Return true -> compare_props x x = Return true.
Proof.
  intros H; unfold compare_props, isinstance.
  assert (Hs : issubclass (type_of x) (type_of x) = true).
  { unfold issubclass; rewrite String.eqb_refl; reflexivity. }
  rewrite Hs; simpl.
  destruct (issubclass (type_of x) ndarray_t); [|assumption].
  destruct x; try assumption; discriminate.
Qed.

(** What a stored value serialises to. *)
Definition serialised (f : tpe) (x : value) : value :=
  match field_to_builtin f x with
  | Return b => b
  | Raise _ => VNone
  end.

Lemma rebuilds_serialised f x :
  rebuilds f x ->
  field_to_builtin f x = Return (serialised f x)
  /\ json_like (serialised f x) = true
  /\ forall c, construct R f (serialised f x) c = (Return x, c).
Proof.
  intros [_ [_ [b [Hb [Hj Hc]]]]]; unfold serialised; rewrite Hb; auto.
Qed.

Lemma builtin_class_neq n b props v :
  mem_string n builtin_names = false -> json_like v = true ->
  class_eqb (type_of v) (Class n b props) = false.
Proof.
  intros Hn Hj; unfold class_eqb; simpl.
  destruct (String.eqb (class_name (type_of v)) n) eqn:E;
    [|rewrite andb_false_r; reflexivity].
  apply String.eqb_eq in E; subst n.
  pose proof (json_like_type_name v Hj) as Ht; unfold type_name in Ht.
  rewrite Ht in Hn; discriminate.
Qed.

Lemma item_ok_Class n b props :
  self_describing (Class n b props) = true ->
  Forall (fun p => field_ok (snd p)) props ->
  item_ok (Class n b props).
Proof.
  intros Hsd Hfields v ctx x ctx' Hj Hm H.
  set (T := Class n b props) in *.
  simpl in Hsd.
  apply andb_true_iff in Hsd; destruct Hsd as [Hsd Hf].
  apply andb_true_iff in Hsd; destruct Hsd as [Hsd Hctx].
  apply andb_true_iff in Hsd; destruct Hsd as [Hn Hu].
  apply negb_true_iff in Hn.
  unfold T in H; rewrite construct_Class in H.
  rewrite (builtin_class_neq n b props v Hn Hj) in H; fold T in H.
  destruct v as [| | | |l|kwargs| | |]; try discriminate;
    try (exfalso; eapply error_then_no_Return; eassumption).
  (* the forward run *)
  unfold __init__ in H.
  apply bind_Return_inv in H; destruct H as [attrs [c1 [Hinit H]]].
  apply bind_Return_inv in H; destruct H as [[] [c2 [Hcheck H]]].
  inversion H; subst x ctx'; clear H.
  apply check_keys_Return_inv in Hcheck; subst c2.
  change (init_fields R T kwargs)
    with (step_into "Object" n (for_fold (field_step kwargs) props [])) in Hinit.
  apply step_into_inv in Hinit.
  2:{ apply balanced_for_fold; intros; apply balanced_step_into, balanced_set_attr. }
  destruct Hinit as [c3 [Hfold Hpop]].
  set (wf := with_frame ("Object", n) ctx) in *.
  destruct (fields_forward kwargs props Hj Hfields [] wf attrs c3 Hm Hfold)
    as [Hc3 Hps].
  subst c3. unfold wf in Hpop; rewrite pop_with_frame in Hpop; subst c1.
  split; [reflexivity|].
  set (X := stored kwargs wf) in *.
  assert (Hattrs : attrs = map (fun p => ("_" ++ fst p, X p)) props).
  { rewrite (for_fold_set (field_step kwargs) X props [] wf) in Hfold.
    - inversion Hfold; reflexivity.
    - intros p Hp; apply (Hps p Hp).
    - assumption.
    - intros; reflexivity. }
  assert (Hlook : forall p, In p props -> lookup ("_" ++ fst p) attrs = Some (X p)).
  { intros p Hp; rewrite Hattrs.
    apply (lookup_map_key (fun k => "_" ++ k) X props p); [|assumption].
    rewrite uniqueb_prefix; assumption. }
  set (d := map (fun p => (fst p, serialised (snd p) (X p))) props).
  assert (Hkeys : keys d = keys props).
  { unfold d, keys; rewrite map_map; reflexivity. }
  assert (Hd : forall p, In p props -> dict_get d (fst p) = serialised (snd p) (X p)).
  { intros p Hp; unfold dict_get, d.
    rewrite (lookup_map_key (fun k => k) (fun p => serialised (snd p) (X p)) props p);
      [reflexivity | rewrite map_id; assumption | assumption]. }
  repeat split.
  - (* x == x *)
    rewrite py_eq_VObj.
    assert (Hcls : class_eqb T (type_of (VObj T attrs)) = true).
    { unfold class_eqb; simpl; apply String.eqb_refl. }
    rewrite Hcls; simpl negb; cbv iota.
    change (config_properties T) with props.
    assert (Hall : forall ps, incl ps props ->
      all_true
        (fun prop_name =>
           match lookup ("_" ++ prop_name) attrs with
           | None => Raise (AttributeError ("_" ++ prop_name))
           | Some self_prop =>
               match lookup ("_" ++ prop_name) (attrs_of (VObj T attrs)) with
               | None => Raise (AttributeError ("_" ++ prop_name))
               | Some other_prop => compare_props self_prop other_prop
               end
           end) (keys ps) = Return true).
    { induction ps as [|p ps IH]; intros Hincl; [reflexivity|].
      cbn [keys map all_true attrs_of].
      rewrite (Hlook p (Hincl p (or_introl eq_refl))).
      rewrite compare_props_refl.
      - apply IH; intros q Hq; apply Hincl; right; assumption.
      - apply (Hps p (Hincl p (or_introl eq_refl))). }
    apply Hall, incl_refl.
  - (* serialise, and construct again *)
    exists (VDict d); repeat split.
    + cbn [field_to_builtin T]; rewrite to_builtin_VObj.
      change (config_properties T) with props.
      assert (Homap : forall ps, incl ps props ->
        omap
          (fun definition : string * tpe =>
             match lookup ("_" ++ fst definition) attrs with
             | None => Raise (AttributeError ("_" ++ fst definition))
             | Some prop_value =>
                 b <~ field_to_builtin (snd definition) prop_value ;;
                 Return (fst definition, b)
             end) ps
        = Return (map (fun p => (fst p, serialised (snd p) (X p))) ps)).
      { induction ps as [|p ps IH]; intros Hincl; [reflexivity|].
        cbn [omap map].
        rewrite (Hlook p (Hincl p (or_introl eq_refl))).
        destruct (rebuilds_serialised _ _ (proj1 (Hps p (Hincl p (or_introl eq_refl)))))
          as [Hser _].
        rewrite Hser; cbn [obind].
        rewrite IH; [reflexivity | intros q Hq; apply Hincl; right; assumption]. }
      rewrite (Homap props (incl_refl _)); reflexivity.
    + cbn [json_like]; rewrite Hkeys, Hu; cbn [andb].
      unfold d; rewrite forallb_forall; intros e He.
      apply in_map_iff in He; destruct He as [p [He Hp]]; subst e; cbn [snd].
      apply (rebuilds_serialised _ _ (proj1 (Hps p Hp))).
    + intros c.
      unfold T; rewrite construct_Class.
      rewrite (builtin_class_neq n b props (VDict d) Hn)
        by (cbn [json_like]; rewrite Hkeys, Hu; cbn [andb];
            unfold d; rewrite forallb_forall; intros e He;
            apply in_map_iff in He; destruct He as [p [He Hp]]; subst e; cbn [snd];
            apply (rebuilds_serialised _ _ (proj1 (Hps p Hp)))).
      fold T; unfold __init__.
      assert (Hinit : init_fields R T d c = (Return attrs, c)).
      { change (init_fields R T d)
          with (step_into "Object" n (for_fold (field_step d) props [])).
        apply step_into_pure.
        rewrite (for_fold_set (field_step d) X props [] (with_frame ("Object", n) c)).
        - rewrite Hattrs; reflexivity.
        - intros p Hp a0; unfold field_step.
          apply step_into_pure; unfold set_attr.
          rewrite (Hd p Hp).
          destruct (Hps p Hp) as [Hreb _].
          destruct (rebuilds_serialised _ _ Hreb) as [_ [_ Hc]].
          rewrite (bind_Return _ _ _ _ _ (Hc _)).
          destruct Hreb as [Hnn _]; rewrite Hnn; reflexivity.
        - assumption.
        - intros; reflexivity. }
      rewrite (bind_Return _ _ _ _ _ Hinit).
      rewrite (bind_Return _ _ c tt c); [reflexivity|].
      apply check_keys_ok.
      intros k Hk; rewrite Hkeys in Hk.
      apply mem_string_In; unfold valid_keys; apply in_or_app; left; exact Hk.
Qed.

Lemma self_describing_ok t :
  (self_describing t = true -> item_ok t)
  /\ (self_describing_field t = true -> field_ok t).
Proof.
  induction t using tpe_nested_ind; simpl; split; try discriminate.
  - apply item_ok_Builtin.
  - intros Hsd; apply item_ok_Class; [exact Hsd|].
    simpl in Hsd.
    apply andb_true_iff in Hsd; destruct Hsd as [_ Hf].
    rewrite forallb_forall in Hf; rewrite Forall_forall in *.
    intros p Hp; apply (H p Hp), (Hf p Hp).
  - intros Hsd; apply field_ok_REQUIRED; [assumption | apply IHt; assumption].
  - intros Hsd; apply field_ok_REPEAT; [assumption | apply IHt; assumption].
Qed.

Lemma omap_keys {A} (g : string * A -> outcome value) ps d :
  omap (fun p : string * A => b <~ g p ;; Return (fst p, b)) ps = Return d ->
  keys d = keys ps.
Proof.
  revert d; induction ps as [|p ps IH]; simpl; intros d H.
  - inversion H; reflexivity.
  - destruct (g p) as [b|e]; simpl in H; [|discriminate].
    destruct (omap _ ps) as [d'|e]; simpl in H; [|discriminate].
    inversion H; subst d; simpl; rewrite (IH d' eq_refl); reflexivity.
Qed.

Lemma omap_lookup_form attrs (ps : list (string * tpe)) :
  omap
    (fun definition : string * tpe =>
       match lookup ("_" ++ fst definition) attrs with
       | None => Raise (AttributeError ("_" ++ fst definition))
       | Some prop_value =>
           b <~ field_to_builtin (snd definition) prop_value ;;
           Return (fst definition, b)
       end) ps
  = omap
      (fun p : string * tpe =>
         b <~ match lookup ("_" ++ fst p) attrs with
              | None => Raise (AttributeError ("_" ++ fst p))
              | Some prop_value => field_to_builtin (snd p) prop_value
              end ;;
         Return (fst p, b)) ps.
Proof.
  induction ps as [|p ps IH]; [reflexivity|].
  cbn [omap]; rewrite IH.
  destruct (lookup ("_" ++ fst p) attrs); reflexivity.
Qed.


End Properties.

(** The class [A] declares no field. *)
Definition A_cls : tpe := Class "A" ["ConfigObject"; "object"] [].

(** C9, counterexample: on [REQUIRED(A)] and the mapping [{"z": 1}] the
    construction raises no [ConfigException] (it raises the [ValueError] of
    the unknown key), and yet [valid] does not return true: it raises. *)
Lemma valid_unknown_key_propagates :
  (forall msg,
      fst (construct cpython (REQUIRED A_cls) (VDict [("z", VInt 1)]) (InitContext_new true))
      <> Raise (ConfigException msg))
  /\ valid cpython (REQUIRED A_cls) (VDict [("z", VInt 1)]) <> Return true
  /\ valid cpython (REQUIRED A_cls) (VDict [("z", VInt 1)])
     = Raise (ValueError "'z' is not in the allowed keys `['__ctx__']`").
Proof.
  repeat split; vm_compute; intros; discriminate.
Qed.

(** ** Concrete schemas *)

Definition Point : tpe :=
  Class "Point" ["ConfigObject"; "object"]
    [("x", REQUIRED int_t); ("y", REQUIRED int_t)].

(** C4, counterexample: on the text [{"x": "a", "z": 1}] two errors are
    on record after the call (a wrong [x], a missing [y]), and yet no summary
    is printed: the key check raises and [from_json] lets it through. *)
Lemma from_json_unknown_key_no_summary :
  let '(printed, r, ctx) :=
    from_json cpython Point (VDict [("x", VStr "a"); ("z", VInt 1)]) in
  n_errors ctx = 2
  /\ printed = None
  /\ r = Raise (ValueError "'z' is not in the allowed keys `['x', 'y', '__ctx__']`").
Proof. vm_compute. repeat split. Qed.



(** ** [EITHER] on concrete alternatives *)

(** The field [shape: Either(Point, "circle")]. *)
Definition shape : tpe := EITHER [Point] [VStr "circle"].

(** C1, the code at the failing input: the value ["circle"] equals the
    literal alternative and matches no other, so exactly one truth bit is
    true; [_construct] hands back the first slot of the type alternatives,
    the absent value, not the original value.  Likewise [EITHER(int, str)] on
    ["abc"] hands back the slot of [int].  No union error is recorded in
    either call: the only error on record is the one of the alternative that
    did not match. *)
Lemma EITHER_returns_first_slot :
  construct cpython shape (VStr "circle") (InitContext_new false)
  = (Return VNone,
     mkInitContext []
       ["Expected type `Point`, but got value `circle` with type `str`."] false)
  /\ construct cpython (EITHER [int_t; str_t] []) (VStr "abc") (InitContext_new false)
     = (Return VNone,
        mkInitContext []
          ["Expected type `int`, but got value `abc` with type `str`."] false).
Proof. vm_compute. split; reflexivity. Qed.

(** C3, the code at the failing input: [EITHER(int, str)] on [3] matches
    [int] and hands back [3], and the failure of the [str] alternative stays on
    the error list of the context, in raise mode (where the exception is
    caught after the error was recorded) and in accumulate mode. *)
Lemma EITHER_keeps_alternative_errors :
  construct cpython (EITHER [int_t; str_t] []) (VInt 3) (InitContext_new true)
  = (Return (VInt 3),
     mkInitContext []
       ["Expected type `str`, but got value `3` with type `int`."] true)
  /\ construct cpython (EITHER [int_t; str_t] []) (VInt 3) (InitContext_new false)
     = (Return (VInt 3),
        mkInitContext []
          ["Expected type `str`, but got value `3` with type `int`."] false).
Proof. vm_compute. split; reflexivity. Qed.

(** ** Equality on array fields *)

(** A record with one array-typed field. *)
Definition Weights : tpe :=
  Class "Weights" ["ConfigObject"; "object"] [("w", REQUIRED ndarray_t)].

(** C7, the code at the failing input: two [Weights] built from the
    arrays [[1]] and [[2]] compare equal, since [__eq__] compares the array of
    [self] with itself. *)
Lemma eq_ignores_other_array :
  ConfigObject_new cpython Weights [("w", VArray [1%Z])]
  = Return (VObj Weights [("_w", VArray [1%Z])])
  /\ ConfigObject_new cpython Weights [("w", VArray [2%Z])]
     = Return (VObj Weights [("_w", VArray [2%Z])])
  /\ __eq__ (VObj Weights [("_w", VArray [1%Z])]) (VObj Weights [("_w", VArray [2%Z])])
     = Return true.
Proof. vm_compute. repeat split. Qed.

(** ** Round trip on concrete schemas *)

Definition Flag : tpe :=
  Class "Flag" ["ConfigObject"; "object"] [("on", REQUIRED bool_t)].

Definition Size : tpe :=
  Class "Size" ["ConfigObject"; "object"] [("n", OPTIONAL int_t VNone)].


(** A polyline: a nested record, a list of records, a string and a mapping. *)
Definition Line : tpe :=
  Class "Line" ["ConfigObject"; "object"]
    [("start", REQUIRED Point); ("points", REPEAT Point);
     ("tag", REQUIRED str_t); ("meta", REQUIRED dict_t)].

Definition line_mapping : dict :=
  [("start", VDict [("x", VInt 0); ("y", VInt 0)]);
   ("points", VList [VDict [("x", VInt 1); ("y", VInt 2)];
                     VDict [("y", VInt 4); ("x", VInt 3)]]);
   ("tag", VStr "diagonal");
   ("meta", VDict [("closed", VBool false); ("width", VNone)])].

Definition line_object : value :=
  VObj Line
    [("_start", VObj Point [("_x", VInt 0); ("_y", VInt 0)]);
     ("_points", VList [VObj Point [("_x", VInt 1); ("_y", VInt 2)];
                        VObj Point [("_x", VInt 3); ("_y", VInt 4)]]);
     ("_tag", VStr "diagonal");
     ("_meta", VDict [("closed", VBool false); ("width", VNone)])].



(** * Further properties of the engine *)

(** ** What [==] can raise *)

(** The exceptions of a comparison: numpy's refusal of a truth value and a
    missing attribute. *)
Definition is_eq_exn (e : exn) : Prop :=
  e = ambiguous \/ exists name, e = AttributeError name.

Lemma lookup_In {A} k (x : A) (l : list (string * A)) :
  lookup k l = Some x -> exists k', In (k', x) l.
Proof.
  induction l as [|[n v] l IH]; simpl; [discriminate|].
  destruct (String.eqb k n).
  - intros H; inversion H; subst; exists n; left; reflexivity.
  - intros H; destruct (IH H) as [k' Hin]; exists k'; right; assumption.
Qed.

Lemma all_true_raises {A} (P : exn -> Prop) (check : A -> outcome bool) l e :
  (forall x e, In x l -> check x = Raise e -> P e) ->
  all_true check l = Raise e -> P e.
Proof.
  induction l as [|x l IH]; simpl; intros H Hr; [discriminate|].
  destruct (check x) as [[|]|e'] eqn:E.
  - apply IH; [intros; eapply H; [right|]; eassumption | assumption].
  - discriminate.
  - inversion Hr; subst; eapply H; [left; reflexivity | eassumption].
Qed.

Lemma all_eq_raises (P : exn -> Prop) l :
  Forall (fun x => forall y e, py_eq x y = Raise e -> P e) l ->
  forall l' e, all_eq py_eq l l' = Raise e -> P e.
Proof.
  induction 1 as [|x l Hx _ IH]; intros l' e Hr; simpl in Hr; [discriminate|].
  destruct l' as [|y l']; [discriminate|].
  destruct (py_eq x y) as [[|]|e'] eqn:E.
  - eapply IH; eassumption.
  - discriminate.
  - inversion Hr; subst; eapply Hx; eassumption.
Qed.

Lemma all_items_raises (P : exn -> Prop) (d : dict) :
  Forall (fun kv => forall y e, py_eq (snd kv) y = Raise e -> P e) d ->
  forall d' e, all_items py_eq d d' = Raise e -> P e.
Proof.
  induction 1 as [|[k x] d Hx _ IH]; intros d' e Hr; simpl in Hr; [discriminate|].
  destruct (lookup k d') as [y|]; [|discriminate].
  destruct (py_eq x y) as [[|]|e'] eqn:E.
  - eapply IH; eassumption.
  - discriminate.
  - inversion Hr; subst; eapply Hx; eassumption.
Qed.

Lemma py_eq_raises a : forall b e, py_eq a b = Raise e -> is_eq_exn e.
Proof.
  induction a using value_nested_ind; intros b' e Hr.
  - destruct b'; simpl in Hr; inversion Hr; left; reflexivity.
  - destruct b'; simpl in Hr; inversion Hr; left; reflexivity.
  - destruct b'; simpl in Hr; inversion Hr; left; reflexivity.
  - destruct b'; simpl in Hr; inversion Hr; left; reflexivity.
  - destruct b'; simpl in Hr; try (inversion Hr; left; reflexivity).
    destruct (negb _); [discriminate|].
    eapply all_eq_raises; eassumption.
  - destruct b'; simpl in Hr; try (inversion Hr; left; reflexivity).
    destruct (negb _); [discriminate|].
    eapply all_items_raises; eassumption.
  - simpl in Hr; inversion Hr; left; reflexivity.
  - destruct b'; simpl in Hr; inversion Hr; left; reflexivity.
  - rewrite py_eq_VObj in Hr.
    destruct (negb _); [discriminate|].
    eapply all_true_raises; [|exact Hr].
    intros n e' _ Hc; cbv beta in Hc.
    destruct (lookup ("_" ++ n) attrs) as [self_prop|] eqn:Es;
      [|inversion Hc; right; eexists; reflexivity].
    destruct (lookup ("_" ++ n) (attrs_of b')) as [other_prop|];
      [|inversion Hc; right; eexists; reflexivity].
    destruct (lookup_In _ _ _ Es) as [k Hin].
    rewrite Forall_forall in H; specialize (H _ Hin); simpl in H.
    unfold compare_props in Hc.
    destruct (negb _ || negb _); [discriminate|].
    destruct (isinstance self_prop ndarray_t).
    + destruct self_prop; try (eapply H; eassumption); discriminate.
    + eapply H; eassumption.
Qed.

Lemma py_eq_not_ConfigException a b e :
  py_eq a b = Raise e -> is_ConfigException e = false.
Proof.
  intros H; destruct (py_eq_raises a b e H) as [He|[n He]]; subst; reflexivity.
Qed.

(** ** A proof principle for constructions

    A property of computations that holds of the primitive steps and is kept
    by sequencing, by the handler of [EITHER] and by [step_into] holds of
    every construction. *)

Record closed (Phi : forall A : Type, M A -> Prop) : Prop := mk_closed {
  closed_ret : forall A (a : A), Phi A (ret a);
  closed_lift : forall A (r : outcome A),
      (forall e, r = Raise e -> is_ConfigException e = false) -> Phi A (lift r);
  closed_error : forall msg, Phi unit (error msg);
  closed_bind : forall A B (m : M A) (k : A -> M B),
      balanced m -> Phi A m -> (forall a, Phi B (k a)) -> Phi B (bind m k);
  closed_except : forall A (body handler : M A),
      balanced body -> Phi A body -> Phi A handler ->
      Phi A (except_ConfigException body handler);
  closed_step_into : forall A obj name (body : M A),
      balanced body -> Phi A body -> Phi A (step_into obj name body)
}.

Section Closure.

Variable R : Rendering.
Variable Phi : forall A : Type, M A -> Prop.
Hypothesis HPhi : closed Phi.

Lemma closed_raise {A} e : is_ConfigException e = false -> Phi A (raise e).
Proof.
  intros He; apply (closed_lift Phi HPhi A (Raise e)).
  intros e' H; inversion H; subst; assumption.
Qed.

Lemma closed_for_each {A B} (f : A -> M B) l :
  (forall x, In x l -> balanced (f x)) ->
  (forall x, In x l -> Phi B (f x)) ->
  Phi (list B) (for_each f l).
Proof.
  induction l as [|x l IH]; intros Hb H; simpl.
  - apply (closed_ret Phi HPhi).
  - apply (closed_bind Phi HPhi);
      [apply Hb; left; reflexivity | apply H; left; reflexivity |].
    intros y; apply (closed_bind Phi HPhi).
    + apply balanced_for_each; intros; apply Hb; right; assumption.
    + apply IH; intros; [apply Hb | apply H]; right; assumption.
    + intros; apply (closed_ret Phi HPhi).
Qed.

Lemma closed_for_each_enumerate {A B} (f : nat -> A -> M B) l :
  (forall i x, In x l -> balanced (f i x)) ->
  (forall i x, In x l -> Phi B (f i x)) ->
  forall i, Phi (list B) (for_each_enumerate f i l).
Proof.
  induction l as [|x l IH]; intros Hb H i; simpl.
  - apply (closed_ret Phi HPhi).
  - apply (closed_bind Phi HPhi);
      [apply Hb; left; reflexivity | apply H; left; reflexivity |].
    intros y; apply (closed_bind Phi HPhi).
    + apply balanced_for_each_enumerate; intros; apply Hb; right; assumption.
    + apply IH; intros; [apply Hb | apply H]; right; assumption.
    + intros; apply (closed_ret Phi HPhi).
Qed.

Lemma closed_for_fold {A S} (f : A -> S -> M S) l :
  (forall x s, In x l -> balanced (f x s)) ->
  (forall x s, In x l -> Phi S (f x s)) ->
  forall s, Phi S (for_fold f l s).
Proof.
  induction l as [|x l IH]; intros Hb H s; simpl.
  - apply (closed_ret Phi HPhi).
  - apply (closed_bind Phi HPhi);
      [apply Hb; left; reflexivity | apply H; left; reflexivity |].
    intros s'; apply IH; intros; [apply Hb | apply H]; right; assumption.
Qed.

Lemma closed_check_keys ks vk : Phi unit (check_keys R ks vk).
Proof.
  induction ks as [|k ks IH]; simpl.
  - apply (closed_ret Phi HPhi).
  - destruct (mem_string k vk); [exact IH | apply closed_raise; reflexivity].
Qed.

Lemma closed_error_then {A} msg (a : A) : Phi A (error msg ;;; ret a).
Proof.
  apply (closed_bind Phi HPhi);
    [apply balanced_error | apply (closed_error Phi HPhi) |].
  intros; apply (closed_ret Phi HPhi).
Qed.

Lemma closed_EITHER_choose types fix_values v cs :
  Phi value (EITHER_choose R types fix_values v cs).
Proof.
  unfold EITHER_choose.
  apply (closed_bind Phi HPhi).
  - apply balanced_for_each; intros; apply balanced_lift.
  - apply closed_for_each; intros x _; [apply balanced_lift|].
    apply (closed_lift Phi HPhi); intros e He.
    eapply py_eq_not_ConfigException; eassumption.
  - intros truths.
    destruct (negb _).
    + destruct (select _ _).
      * apply (closed_bind Phi HPhi); [apply balanced_lift | |].
        -- apply (closed_lift Phi HPhi); intros e He.
           unfold last_item in He; destruct (_ ++ _)%list; inversion He; reflexivity.
        -- intros; apply closed_error_then.
      * destruct (Nat.leb _ _); [apply closed_error_then|].
        apply closed_raise; reflexivity.
    + destruct cs; apply (closed_ret Phi HPhi).
Qed.

Lemma closed_set_attr_body t name v attrs :
  Phi value (construct R t v) ->
  Phi dict
    (constructed_val <- construct R t v ;;
     ret (dict_set ("_" ++ name)
            (if is_None constructed_val then default t else constructed_val) attrs)).
Proof.
  intros H; apply (closed_bind Phi HPhi); [apply balanced_construct | exact H|].
  intros; apply (closed_ret Phi HPhi).
Qed.

Theorem closed_construct t : forall v, Phi value (construct R t v).
Proof.
  induction t using tpe_nested_ind; intros v; simpl.
  - destruct (class_eqb _ _); [apply (closed_ret Phi HPhi) | apply closed_error_then].
  - destruct (class_eqb _ _); [apply (closed_ret Phi HPhi)|].
    destruct v; try apply closed_error_then.
    apply (closed_bind Phi HPhi).
    + apply balanced_step_into, balanced_for_fold; intros p s _.
      apply balanced_step_into, balanced_bind; [apply balanced_construct|].
      intros; apply balanced_ret.
    + apply (closed_step_into Phi HPhi).
      * apply balanced_for_fold; intros p s _.
        apply balanced_step_into, balanced_bind; [apply balanced_construct|].
        intros; apply balanced_ret.
      * apply closed_for_fold; intros p s Hin.
        -- apply balanced_step_into, balanced_bind; [apply balanced_construct|].
           intros; apply balanced_ret.
        -- apply (closed_step_into Phi HPhi).
           ++ apply balanced_bind; [apply balanced_construct|].
              intros; apply balanced_ret.
           ++ apply closed_set_attr_body.
              rewrite Forall_forall in H; apply (H p Hin).
    + intros attrs; apply (closed_bind Phi HPhi);
        [apply balanced_check_keys | apply closed_check_keys |].
      intros; apply (closed_ret Phi HPhi).
  - apply IHt.
  - destruct (is_None v); [apply (closed_ret Phi HPhi) | apply IHt].
  - apply (closed_bind Phi HPhi).
    + apply balanced_for_each; intros t _.
      apply balanced_except; [apply balanced_construct | apply balanced_ret].
    + apply closed_for_each; intros t Hin.
      * apply balanced_except; [apply balanced_construct | apply balanced_ret].
      * apply (closed_except Phi HPhi);
          [apply balanced_construct | | apply (closed_ret Phi HPhi)].
        rewrite Forall_forall in H; apply (H t Hin).
    + intros; apply closed_EITHER_choose.
  - destruct (is_None v); [apply (closed_ret Phi HPhi)|].
    assert (Hit : Phi value
      (match iter v with
       | Some listlike =>
           constructed_list <-
             for_each_enumerate
               (fun i el =>
                  step_into "List" ("at element " ++ str_value R (VInt (Z.of_nat i)))
                    (construct R t el)) 0 listlike ;;
           ret (VList constructed_list)
       | None =>
           error ("Expected a listlike type, but got type " ++ type_name v ++ ".") ;;;
           ret VNone
       end)).
    { destruct (iter v); [|apply closed_error_then].
      apply (closed_bind Phi HPhi).
      - apply balanced_for_each_enumerate; intros.
        apply balanced_step_into, balanced_construct.
      - apply closed_for_each_enumerate; intros.
        + apply balanced_step_into, balanced_construct.
        + apply (closed_step_into Phi HPhi); [apply balanced_construct | apply IHt].
      - intros; apply (closed_ret Phi HPhi). }
    destruct v; try exact Hit.
    apply closed_error_then.
  - destruct (negb (is_class t)); [apply closed_raise; reflexivity|].
    destruct (issubclass _ _); [apply (closed_ret Phi HPhi) | apply closed_error_then].
Qed.

Lemma closed_init cls kwargs : Phi value (__init__ R cls kwargs).
Proof.
  unfold __init__, init_fields.
  apply (closed_bind Phi HPhi).
  - apply balanced_step_into, balanced_for_fold; intros p s _.
    apply balanced_step_into, balanced_set_attr.
  - apply (closed_step_into Phi HPhi).
    + apply balanced_for_fold; intros p s _.
      apply balanced_step_into, balanced_set_attr.
    + apply closed_for_fold; intros p s _.
      * apply balanced_step_into, balanced_set_attr.
      * apply (closed_step_into Phi HPhi); [apply balanced_set_attr|].
        apply closed_set_attr_body, closed_construct.
  - intros attrs; apply (closed_bind Phi HPhi);
      [apply balanced_check_keys | apply closed_check_keys |].
    intros; apply (closed_ret Phi HPhi).
Qed.

End Closure.

(** ** The error list across a construction *)

(** The context [c] switched to the mode [b]. *)
Definition set_mode (b : bool) (c : InitContext) : InitContext :=
  mkInitContext (_stack c) (_errors c) b.

(** Errors are appended, never removed. *)
Definition grows {A} (m : M A) : Prop :=
  forall c, exists new, _errors (snd (m c)) = (_errors c ++ new)%list.

(** A [ConfigException] leaves only under raise mode, and carries the error
    recorded last. *)
Definition raises_last {A} (m : M A) : Prop :=
  forall c msg,
    fst (m c) = Raise (ConfigException msg) ->
    raise_exceptions c = true
    /\ exists prev, _errors (snd (m c)) = (prev ++ [msg])%list.

(** A run in accumulate mode that records nothing is also the run in raise
    mode. *)
Definition quiet_agrees {A} (m : M A) : Prop :=
  forall c,
    raise_exceptions c = false ->
    _errors (snd (m c)) = _errors c ->
    m (set_mode true c) = (fst (m c), set_mode true (snd (m c))).

Definition lawful (A : Type) (m : M A) : Prop :=
  grows m /\ raises_last m /\ quiet_agrees m.

Lemma app_one_neq {A} (l : list A) x : (l ++ [x])%list <> l.
Proof.
  intros H; apply (f_equal (@List.length A)) in H.
  rewrite length_app in H; simpl in H; lia.
Qed.

Lemma app_app_nil {A} (l n1 n2 : list A) :
  ((l ++ n1) ++ n2)%list = l -> n1 = [] /\ n2 = [].
Proof.
  intros H; rewrite <- app_assoc in H.
  rewrite <- (app_nil_r l) in H at 2.
  apply app_inv_head in H; apply app_eq_nil in H; exact H.
Qed.

Lemma step_into_eq {A} obj name (body : M A) c :
  balanced body ->
  step_into obj name body c
  = (fst (body (with_frame (obj, name) c)),
     mkInitContext (removelast (_stack (snd (body (with_frame (obj, name) c)))))
       (_errors (snd (body (with_frame (obj, name) c))))
       (raise_exceptions (snd (body (with_frame (obj, name) c))))).
Proof.
  intros Hb.
  destruct (body (with_frame (obj, name) c)) as [r c1] eqn:E.
  cbn [fst snd].
  apply step_into_run; [exact E|].
  pose proof (Hb (with_frame (obj, name) c)) as [Hs _]; rewrite E in Hs; simpl in Hs.
  rewrite Hs; destruct (_stack c); discriminate.
Qed.

Lemma lawful_closed : closed lawful.
Proof.
  constructor.
  - (* ret *)
    intros A a; split; [|split].
    + intros c; exists []; simpl; rewrite app_nil_r; reflexivity.
    + intros c msg H; discriminate.
    + intros c Hm He; reflexivity.
  - (* lift *)
    intros A r Hr; split; [|split].
    + intros c; exists []; simpl; rewrite app_nil_r; reflexivity.
    + intros c msg H; simpl in H; apply Hr in H; discriminate.
    + intros c Hm He; reflexivity.
  - (* error *)
    intros msg; split; [|split].
    + intros c; exists [error_str msg c]; unfold error.
      destruct (raise_exceptions c); reflexivity.
    + intros c msg' H; unfold error in *.
      destruct (raise_exceptions c); [|discriminate].
      simpl in *; inversion H; split; [reflexivity|].
      exists (_errors c); reflexivity.
    + intros c Hm He; exfalso.
      unfold error in He; rewrite Hm in He; simpl in He.
      exact (app_one_neq _ _ He).
  - (* bind *)
    intros A B m k Hb [Hg [Hr Hq]] Hk; split; [|split].
    + intros c; unfold bind.
      destruct (Hg c) as [n1 H1].
      destruct (m c) as [[a|e] c1]; simpl in *.
      * destruct (Hk a) as [Hga _]; destruct (Hga c1) as [n2 H2].
        exists (n1 ++ n2)%list; rewrite H2, H1, app_assoc; reflexivity.
      * exists n1; assumption.
    + intros c msg H; unfold bind in *.
      pose proof (Hb c) as [_ Hmode]; pose proof (Hr c msg) as Hrc.
      destruct (m c) as [[a|e] c1]; simpl in *.
      * destruct (Hk a) as [_ [Hra _]].
        destruct (Hra c1 msg H) as [Hm1 Hlast]; split; [congruence | exact Hlast].
      * inversion H; subst e; apply Hrc; reflexivity.
    + intros c Hm He; unfold bind in *.
      pose proof (Hb c) as [_ Hmode]; pose proof (Hg c) as [n1 H1].
      pose proof (Hq c Hm) as Hqc.
      destruct (m c) as [[a|e] c1]; simpl in *.
      * destruct (Hk a) as [Hga [_ Hqa]]; destruct (Hga c1) as [n2 H2].
        assert (Hn : n1 = [] /\ n2 = []).
        { apply (app_app_nil (_errors c)); rewrite <- H1, <- H2; exact He. }
        destruct Hn; subst n1 n2; rewrite app_nil_r in *.
        rewrite (Hqc H1); apply Hqa; congruence.
      * rewrite (Hqc He); reflexivity.
  - (* except *)
    intros A body handler Hb [Hg [Hr Hq]] [Hgh [Hrh Hqh]]; split; [|split].
    + intros c; unfold except_ConfigException.
      destruct (Hg c) as [n1 H1].
      destruct (body c) as [[a|e] c1]; simpl in *; [exists n1; assumption|].
      destruct e; try (exists n1; assumption).
      destruct (Hgh c1) as [n2 H2].
      exists (n1 ++ n2)%list; rewrite H2, H1, app_assoc; reflexivity.
    + intros c msg H; unfold except_ConfigException in *.
      pose proof (Hb c) as [_ Hmode]; pose proof (Hr c) as Hrc.
      destruct (body c) as [[a|e] c1]; simpl in *; [discriminate|].
      destruct e; try discriminate.
      destruct (Hrh c1 msg H) as [Hm1 Hlast]; split; [congruence | exact Hlast].
    + intros c Hm He; unfold except_ConfigException in *.
      pose proof (Hr c) as Hrc; pose proof (Hq c Hm) as Hqc.
      destruct (body c) as [[a|e] c1]; simpl in *.
      * rewrite (Hqc He); reflexivity.
      * destruct e; try (rewrite (Hqc He); reflexivity).
        destruct (Hrc msg eq_refl) as [Hmt _]; congruence.
  - (* step_into *)
    intros A obj name body Hb [Hg [Hr Hq]]; split; [|split].
    + intros c; rewrite (step_into_eq obj name body c Hb); simpl.
      destruct (Hg (with_frame (obj, name) c)) as [n1 H1]; exists n1; exact H1.
    + intros c msg H.
      rewrite (step_into_eq obj name body c Hb) in *; simpl in *.
      apply (Hr (with_frame (obj, name) c) msg H).
    + intros c Hm He.
      rewrite (step_into_eq obj name body (set_mode true c) Hb).
      rewrite (step_into_eq obj name body c Hb) in *; simpl in He.
      change (with_frame (obj, name) (set_mode true c))
        with (set_mode true (with_frame (obj, name) c)).
      rewrite (Hq (with_frame (obj, name) c) Hm He); reflexivity.
Qed.

Section ErrorList.

Variable R : Rendering.

Lemma lawful_construct t v : lawful value (construct R t v).
Proof. apply closed_construct, lawful_closed. Qed.

Lemma lawful_init cls kwargs : lawful value (__init__ R cls kwargs).
Proof. apply closed_init, lawful_closed. Qed.

(** X1: a construction only ever appends to the list of recorded errors:
    whatever the descriptor, the value, the mode and the outcome, the errors
    on record before the call are a prefix of those on record after it.  The
    same holds of [__init__]. *)
Theorem errors_only_grow :
  (forall t v ctx,
      exists new, _errors (snd (construct R t v ctx)) = (_errors ctx ++ new)%list)
  /\ (forall cls kwargs ctx,
         exists new,
           _errors (snd (__init__ R cls kwargs ctx)) = (_errors ctx ++ new)%list).
Proof.
  split.
  - intros t v ctx; apply (proj1 (lawful_construct t v)).
  - intros cls kwargs ctx; apply (proj1 (lawful_init cls kwargs)).
Qed.

(** X2: under an accumulate-mode context no construction raises a
    [ConfigException], and neither does [construct] called without a context
    (it makes an accumulate-mode one). *)
Theorem accumulate_never_raises_ConfigException :
  forall t v,
    (forall ctx msg,
        raise_exceptions ctx = false ->
        fst (construct R t v ctx) <> Raise (ConfigException msg))
    /\ (forall msg,
           fst (ConfigField_construct R t v None) <> Raise (ConfigException msg)).
Proof.
  intros t v.
  assert (H : forall ctx msg, raise_exceptions ctx = false ->
                fst (construct R t v ctx) <> Raise (ConfigException msg)).
  { intros ctx msg Hm Hr.
    destruct (proj1 (proj2 (lawful_construct t v)) ctx msg Hr) as [Ht _].
    congruence. }
  split; [exact H | intros msg; apply H; reflexivity].
Qed.

(** X3: when a construction raises a [ConfigException], the context is in
    raise mode and the message of the exception is exactly the error recorded
    last. *)
Theorem ConfigException_carries_last_error :
  forall t v ctx msg,
    fst (construct R t v ctx) = Raise (ConfigException msg) ->
    raise_exceptions ctx = true
    /\ exists prev, _errors (snd (construct R t v ctx)) = (prev ++ [msg])%list.
Proof.
  intros t v ctx msg H; apply (proj1 (proj2 (lawful_construct t v)) ctx msg H).
Qed.

(** X4: the two entry points agree: when [from_json] hands back an object
    (so no error was recorded), constructing the class from the same mapping
    under the default raise-mode context yields that very object. *)
Theorem from_json_agrees_with_constructor :
  forall cls kwargs out obj ctx,
    lookup "__ctx__" kwargs = None ->
    from_json R cls (VDict kwargs) = (out, Return (Loaded obj), ctx) ->
    ConfigObject_new R cls kwargs = Return obj.
Proof.
  intros cls kwargs out obj ctx Hk H.
  unfold from_json in H; unfold ConfigObject_new; rewrite Hk.
  pose proof (proj2 (proj2 (lawful_init cls kwargs)) (InitContext_new false) eq_refl)
    as Hq.
  destruct (__init__ R cls kwargs (InitContext_new false)) as [[o|e] c'];
    [|discriminate].
  destruct (Nat.eqb (n_errors c') 0) eqn:En; simpl in H; [|discriminate].
  inversion H; subst o ctx out; clear H.
  apply Nat.eqb_eq in En; unfold n_errors in En.
  simpl in Hq.
  assert (He : _errors c' = []) by (destruct (_errors c'); [reflexivity | discriminate]).
  change (set_mode true (InitContext_new false)) with (InitContext_new true) in Hq.
  rewrite (Hq He); reflexivity.
Qed.

(** X5: what a construction returns or raises depends on the mode of the
    context only, not on the frames already on its stack nor on the errors
    already recorded: from two contexts of one mode it returns the same value,
    or raises the same exception up to the message of a [ConfigException]
    (which renders the stack). *)
Theorem outcome_depends_on_mode_only :
  forall t v c1 c2,
    raise_exceptions c1 = raise_exceptions c2 ->
    alike (fst (construct R t v c1)) (fst (construct R t v c2)).
Proof. intros t v c1 c2 H; apply mode_only_construct; exact H. Qed.

End ErrorList.

(** The error of the second element of [[1, "a"]] under [REPEAT(int)]. *)
Definition second_element_error : string :=
  "Expected type `int`, but got value `a` with type `str`."
  ++ nl ++ "Traceback:" ++ nl ++ "    List:     at element 1".

Lemma ConfigException_carries_last_error_witness :
  fst (construct cpython (REPEAT int_t) (VList [VInt 1; VStr "a"]) (InitContext_new true))
  = Raise (ConfigException second_element_error)
  /\ raise_exceptions (InitContext_new true) = true
  /\ exists prev,
      _errors (snd (construct cpython (REPEAT int_t) (VList [VInt 1; VStr "a"])
                      (InitContext_new true)))
      = app prev [second_element_error].
Proof.
  assert (H : fst (construct cpython (REPEAT int_t) (VList [VInt 1; VStr "a"])
                     (InitContext_new true))
              = Raise (ConfigException second_element_error))
    by reflexivity.
  split; [exact H|].
  exact (ConfigException_carries_last_error cpython _ _ _ _ H).
Defined.

Lemma from_json_agrees_with_constructor_witness :
  lookup "__ctx__" line_mapping = None
  /\ from_json cpython Line (VDict line_mapping)
     = (None, Return (Loaded line_object), InitContext_new false)
  /\ ConfigObject_new cpython Line line_mapping = Return line_object.
Proof.
  assert (H1 : lookup "__ctx__" line_mapping = None) by reflexivity.
  assert (H2 : from_json cpython Line (VDict line_mapping)
               = (None, Return (Loaded line_object), InitContext_new false))
    by reflexivity.
  split; [exact H1|]. split; [exact H2|].
  exact (from_json_agrees_with_constructor cpython _ _ _ _ _ H1 H2).
Defined.

Lemma outcome_depends_on_mode_only_witness :
  raise_exceptions (mkInitContext [("Object", "Net")] ["an earlier error"] true)
  = raise_exceptions (InitContext_new true)
  /\ alike
       (fst (construct cpython shape (VStr "square")
               (mkInitContext [("Object", "Net")] ["an earlier error"] true)))
       (fst (construct cpython shape (VStr "square") (InitContext_new true))).
Proof.
  split; [reflexivity|].
  apply (outcome_depends_on_mode_only cpython); reflexivity.
Defined.

(** ** The ways a construction can fail *)

(** What the constructors of the descriptors check: an [EITHER] has at least
    two alternatives, a [SUBCLASS_OF] holds a class.  [Lit] is a condition on
    the literal alternatives. *)
Fixpoint well_formed_with (Lit : value -> bool) (t : tpe) : bool :=
  match t with
  | Builtin _ _ => true
  | Class _ _ props => forallb (fun p : string * tpe => well_formed_with Lit (snd p)) props
  | REQUIRED t' | OPTIONAL t' _ | REPEAT t' => well_formed_with Lit t'
  | EITHER types fix_values =>
      Nat.leb 2 (List.length types + List.length fix_values)
      && forallb (well_formed_with Lit) types
      && forallb Lit fix_values
  | SUBCLASS_OF t' => is_class t'
  end.

Definition well_formed : tpe -> bool := well_formed_with (fun _ => true).

(** Well formed, with plain data for literal alternatives. *)
Definition well_formed_plain : tpe -> bool := well_formed_with json_like.

Lemma select_length {A} truths (all : list A) :
  List.length truths = List.length all ->
  List.length (select truths all) = count_true truths.
Proof.
  revert all; induction truths as [|b truths IH]; intros [|x all] H;
    try discriminate; [reflexivity|].
  simpl in H; injection H as H.
  unfold count_true in *; simpl; destruct b; simpl; rewrite IH; auto.
Qed.

Lemma for_each_length {A B} (f : A -> M B) l :
  forall c ys, fst (for_each f l c) = Return ys -> List.length ys = List.length l.
Proof.
  induction l as [|x l IH]; intros c ys H; simpl in H.
  - inversion H; reflexivity.
  - unfold bind in H.
    destruct (f x c) as [[y|e] c1]; [|discriminate].
    specialize (IH c1).
    destruct (for_each f l c1) as [[ys'|e] c2]; [|discriminate].
    inversion H; simpl; rewrite (IH ys' eq_refl); reflexivity.
Qed.

Lemma py_eq_json_returns a :
  forall b, json_like a = true -> json_like b = true -> exists r, py_eq a b = Return r.
Proof.
  induction a using value_nested_ind; intros b' Ha Hb; try discriminate.
  - destruct b'; try discriminate; simpl; eauto.
  - destruct b'; try discriminate; simpl; eauto.
  - destruct b'; try discriminate; simpl; eauto.
  - destruct b'; try discriminate; simpl; eauto.
  - destruct b' as [| | | |l'| | | |]; try discriminate; simpl; eauto.
    destruct (negb _); [eauto|].
    simpl in Ha, Hb; clear -H Ha Hb.
    revert l' Hb; induction H as [|x l Hx _ IH]; intros l' Hb; simpl; [eauto|].
    destruct l' as [|y l']; [eauto|].
    simpl in Ha, Hb.
    apply andb_true_iff in Ha; destruct Ha as [Hxa Ha].
    apply andb_true_iff in Hb; destruct Hb as [Hyb Hb].
    destruct (Hx y Hxa Hyb) as [[|] Hr]; rewrite Hr; [|eauto].
    apply IH; assumption.
  - destruct b' as [| | | | |d'| | |]; try discriminate; simpl; eauto.
    destruct (negb _); [eauto|].
    simpl in Ha, Hb.
    apply andb_true_iff in Ha; destruct Ha as [_ Ha].
    apply andb_true_iff in Hb; destruct Hb as [_ Hb].
    clear -H Ha Hb.
    induction H as [|[k x] d Hx _ IH]; simpl; [eauto|].
    simpl in Ha, Hx; apply andb_true_iff in Ha; destruct Ha as [Hxa Ha].
    destruct (lookup k d') as [y|] eqn:El; [|eauto].
    assert (Hy : json_like y = true).
    { destruct (lookup_In _ _ _ El) as [k' Hin].
      rewrite forallb_forall in Hb; apply (Hb _ Hin). }
    destruct (Hx y Hxa Hy) as [[|] Hr]; rewrite Hr; [|eauto].
    apply IH; assumption.
Qed.

Section Failures.

Variable R : Rendering.

(** The exceptions allowed to leave a construction, the values it is run
    on, and the literal alternatives of the schema. *)
Variable P : exn -> Prop.
Variable Vok : value -> Prop.
Variable Lit : value -> bool.

Hypothesis P_ConfigException : forall msg, P (ConfigException msg).
Hypothesis P_unknown_key : forall k ks, P (ValueError (unknown_key_msg R k ks)).
Hypothesis P_eq : forall v fix_value e,
    Vok v -> Lit fix_value = true -> py_eq v fix_value = Raise e -> P e.
Hypothesis Vok_iter : forall v l, Vok v -> iter v = Some l -> Forall Vok l.
Hypothesis Vok_get : forall d k, Vok (VDict d) -> Vok (dict_get d k).

Definition fails_only {A} (m : M A) : Prop :=
  forall c e, fst (m c) = Raise e -> P e.

Lemma fails_only_ret {A} (a : A) : fails_only (ret a).
Proof. intros c e H; discriminate. Qed.

Lemma fails_only_error_then {A} msg (a : A) : fails_only (error msg ;;; ret a).
Proof.
  intros c e H; unfold bind, error in H.
  destruct (raise_exceptions c); simpl in H; [|discriminate].
  inversion H; apply P_ConfigException.
Qed.

Lemma fails_only_bind {A B} (m : M A) (k : A -> M B) :
  fails_only m ->
  (forall a c, fst (m c) = Return a -> fails_only (k a)) ->
  fails_only (bind m k).
Proof.
  intros Hm Hk c e H; unfold bind in H.
  pose proof (Hm c) as Hmc; pose proof (fun a => Hk a c) as Hkc.
  destruct (m c) as [[a|e'] c1]; simpl in *.
  - apply (Hkc a eq_refl c1 e H).
  - inversion H; subst; apply Hmc; reflexivity.
Qed.

Lemma fails_only_except {A} (body handler : M A) :
  fails_only body -> fails_only handler ->
  fails_only (except_ConfigException body handler).
Proof.
  intros Hb Hh c e H; unfold except_ConfigException in H.
  pose proof (Hb c) as Hbc.
  destruct (body c) as [[a|e'] c1]; simpl in *; [discriminate|].
  destruct e'; try (apply Hbc; exact H).
  apply (Hh c1 e H).
Qed.

Lemma fails_only_step_into {A} obj name (body : M A) :
  balanced body -> fails_only body -> fails_only (step_into obj name body).
Proof.
  intros Hbal Hb c e H.
  rewrite (step_into_eq obj name body c Hbal) in H; simpl in H.
  apply (Hb _ e H).
Qed.

Lemma fails_only_for_each {A B} (f : A -> M B) l :
  (forall x, In x l -> fails_only (f x)) -> fails_only (for_each f l).
Proof.
  induction l as [|x l IH]; intros H; simpl.
  - apply fails_only_ret.
  - apply fails_only_bind; [apply H; left; reflexivity|].
    intros y c _; apply fails_only_bind;
      [apply IH; intros; apply H; right; assumption|].
    intros; apply fails_only_ret.
Qed.

Lemma fails_only_for_each_enumerate {A B} (f : nat -> A -> M B) l :
  (forall i x, In x l -> fails_only (f i x)) ->
  forall i, fails_only (for_each_enumerate f i l).
Proof.
  induction l as [|x l IH]; intros H i; simpl.
  - apply fails_only_ret.
  - apply fails_only_bind; [apply H; left; reflexivity|].
    intros y c _; apply fails_only_bind;
      [apply IH; intros; apply H; right; assumption|].
    intros; apply fails_only_ret.
Qed.

Lemma fails_only_for_fold {A S} (f : A -> S -> M S) l :
  (forall x s, In x l -> fails_only (f x s)) ->
  forall s, fails_only (for_fold f l s).
Proof.
  induction l as [|x l IH]; intros H s; simpl.
  - apply fails_only_ret.
  - apply fails_only_bind; [apply H; left; reflexivity|].
    intros s' c _; apply IH; intros; apply H; right; assumption.
Qed.

Lemma fails_only_check_keys ks vk : fails_only (check_keys R ks vk).
Proof.
  induction ks as [|k ks IH]; simpl.
  - apply fails_only_ret.
  - destruct (mem_string k vk); [exact IH|].
    intros c e H; inversion H; apply P_unknown_key.
Qed.

Lemma fails_only_EITHER_choose types fix_values v cs :
  Vok v ->
  forallb Lit fix_values = true ->
  Nat.leb 2 (List.length types + List.length fix_values) = true ->
  List.length cs = List.length types ->
  fails_only (EITHER_choose R types fix_values v cs).
Proof.
  intros Hv Hlit Hlen Hcs; unfold EITHER_choose.
  apply fails_only_bind.
  - apply fails_only_for_each; intros x Hin c e H; simpl in H.
    rewrite forallb_forall in Hlit.
    eapply P_eq; [exact Hv | apply (Hlit x Hin) | exact H].
  - intros truths c Ht.
    apply for_each_length in Ht.
    destruct (negb _) eqn:Hcount; [|destruct cs; apply fails_only_ret].
    apply negb_true_iff, Nat.eqb_neq in Hcount.
    set (all := (map (str_class R) types ++ map (str_value R) fix_values)%list) in *.
    assert (Hall : List.length all = List.length types + List.length fix_values).
    { unfold all; rewrite length_app, !length_map; reflexivity. }
    assert (Hsel : List.length
                     (select (map (fun c => negb (is_None c)) cs ++ truths)%list all)
                   = count_true (map (fun c => negb (is_None c)) cs ++ truths)%list).
    { apply select_length; rewrite length_app, length_map, Hall; lia. }
    destruct (select _ all) as [|x sel] eqn:Es.
    + apply fails_only_bind; [|intros; apply fails_only_error_then].
      intros c' e H; simpl in H; exfalso.
      unfold last_item in H; destruct all; [|discriminate].
      simpl in Hall; apply Nat.leb_le in Hlen; lia.
    + assert (Hge : Nat.leb 2 (List.length (x :: sel)) = true).
      { apply Nat.leb_le; rewrite Hsel in *; simpl in Hsel; lia. }
      rewrite Hge; apply fails_only_error_then.
Qed.

Lemma fails_only_construct t :
  well_formed_with Lit t = true -> forall v, Vok v -> fails_only (construct R t v).
Proof.
  induction t using tpe_nested_ind; intros Hwf v Hv; simpl in *.
  - destruct (class_eqb _ _); [apply fails_only_ret | apply fails_only_error_then].
  - destruct (class_eqb _ _); [apply fails_only_ret|].
    destruct v; try apply fails_only_error_then.
    apply fails_only_bind.
    + apply fails_only_step_into.
      * apply balanced_for_fold; intros p s _.
        apply balanced_step_into, balanced_bind; [apply balanced_construct|].
        intros; apply balanced_ret.
      * apply fails_only_for_fold; intros p s Hin.
        apply fails_only_step_into.
        -- apply balanced_bind; [apply balanced_construct|].
           intros; apply balanced_ret.
        -- apply fails_only_bind; [|intros; apply fails_only_ret].
           rewrite Forall_forall in H; rewrite forallb_forall in Hwf.
           apply (H p Hin (Hwf p Hin)), Vok_get, Hv.
    + intros attrs c _; apply fails_only_bind;
        [apply fails_only_check_keys | intros; apply fails_only_ret].
  - apply IHt; assumption.
  - destruct (is_None v); [apply fails_only_ret | apply IHt; assumption].
  - apply andb_true_iff in Hwf; destruct Hwf as [Hwf Hlit].
    apply andb_true_iff in Hwf; destruct Hwf as [Hlen Hwf].
    apply fails_only_bind.
    + apply fails_only_for_each; intros t Hin.
      apply fails_only_except; [|apply fails_only_ret].
      rewrite Forall_forall in H; rewrite forallb_forall in Hwf.
      apply (H t Hin (Hwf t Hin)); assumption.
    + intros cs c Hcs; apply for_each_length in Hcs.
      apply fails_only_EITHER_choose; assumption.
  - destruct (is_None v); [apply fails_only_ret|].
    assert (Hit : fails_only
      (match iter v with
       | Some listlike =>
           constructed_list <-
             for_each_enumerate
               (fun i el =>
                  step_into "List" ("at element " ++ str_value R (VInt (Z.of_nat i)))
                    (construct R t el)) 0 listlike ;;
           ret (VList constructed_list)
       | None =>
           error ("Expected a listlike type, but got type " ++ type_name v ++ ".") ;;;
           ret VNone
       end)).
    { destruct (iter v) as [items|] eqn:Ei; [|apply fails_only_error_then].
      apply fails_only_bind; [|intros; apply fails_only_ret].
      apply fails_only_for_each_enumerate; intros i x Hin.
      apply fails_only_step_into; [apply balanced_construct|].
      apply IHt; [assumption|].
      pose proof (Vok_iter v items Hv Ei) as Hall.
      rewrite Forall_forall in Hall; apply Hall; assumption. }
    destruct v; try exact Hit.
    apply fails_only_error_then.
  - rewrite Hwf; simpl.
    destruct (issubclass _ _); [apply fails_only_ret | apply fails_only_error_then].
Qed.

End Failures.

Section FailureTheorems.

Variable R : Rendering.



End FailureTheorems.

(** A network description: layers given by name or as records, and an
    optimiser chosen among literals. *)
Definition Layer : tpe :=
  Class "Layer" ["ConfigObject"; "object"]
    [("name", REQUIRED str_t); ("units", OPTIONAL int_t (VInt 10))].

Definition Net : tpe :=
  Class "Net" ["ConfigObject"; "object"]
    [("layers", REPEAT (EITHER [Layer; str_t] []));
     ("optimizer", EITHER [] [VStr "sgd"; VStr "adam"])].



(** ** The attributes of a constructed object *)

Lemma lookup_dict_set_same k v (d : dict) : lookup k (dict_set k v d) = Some v.
Proof.
  induction d as [|[n x] d IH]; simpl.
  - rewrite String.eqb_refl; reflexivity.
  - destruct (String.eqb k n) eqn:E; simpl.
    + rewrite String.eqb_refl; reflexivity.
    + rewrite E; exact IH.
Qed.

Lemma lookup_dict_set_other k k' v (d : dict) :
  k' <> k -> lookup k' (dict_set k v d) = lookup k' d.
Proof.
  intros Hne; induction d as [|[n x] d IH]; simpl.
  - apply String.eqb_neq in Hne; rewrite Hne; reflexivity.
  - destruct (String.eqb k n) eqn:E; simpl.
    + apply String.eqb_eq in E; subst n.
      apply String.eqb_neq in Hne; rewrite Hne; reflexivity.
    + destruct (String.eqb k' n); [reflexivity | exact IH].
Qed.

Lemma In_keys_dict_set k k' v (d : dict) :
  In k' (keys (dict_set k v d)) <-> k' = k \/ In k' (keys d).
Proof.
  induction d as [|[n x] d IH]; simpl.
  - split; [intros [H|[]]; left; auto | intros [H|[]]; left; auto].
  - destruct (String.eqb k n) eqn:E; simpl.
    + apply String.eqb_eq in E; subst n; intuition (subst; auto).
    + rewrite IH; intuition (subst; auto).
Qed.

Lemma In_keys_lookup {A} k (d : list (string * A)) :
  In k (keys d) -> exists x, lookup k d = Some x.
Proof.
  induction d as [|[n x] d IH]; simpl; [contradiction|].
  intros [H|H].
  - subst n; rewrite String.eqb_refl; eauto.
  - destruct (String.eqb k n); eauto.
Qed.

Lemma prefix_inj a b : "_" ++ a = "_" ++ b -> a = b.
Proof. intros H; inversion H; reflexivity. Qed.

Section Attributes.

Variable R : Rendering.

(** [self._get_property(name)] *)
Definition _get_property (self : value) (name : string) : outcome value :=
  match lookup ("_" ++ name) (attrs_of self) with
  | Some v => Return v
  | None => Raise (AttributeError ("_" ++ name))
  end.

(** What [_set_property] stores for a field, given what its [construct]
    returned. *)
Definition resolved (field_def : tpe) (constructed_val : value) : value :=
  if is_None constructed_val then default field_def else constructed_val.

Lemma set_attr_Return_inv f name v a0 c a1 c1 :
  set_attr R f name v a0 c = (Return a1, c1) ->
  exists x, construct R f v c = (Return x, c1)
            /\ a1 = dict_set ("_" ++ name) (resolved f x) a0.
Proof.
  unfold set_attr; intros H.
  apply bind_Return_inv in H; destruct H as [x [c2 [Hc H]]].
  inversion H; subst; exists x; split; [assumption | reflexivity].
Qed.

Lemma field_step_Return_inv kwargs p a0 c a1 c1 :
  field_step R kwargs p a0 c = (Return a1, c1) ->
  exists x c2,
    construct R (snd p) (dict_get kwargs (fst p))
      (with_frame (traceback_type (snd p), fst p) c) = (Return x, c2)
    /\ a1 = dict_set ("_" ++ fst p) (resolved (snd p) x) a0.
Proof.
  unfold field_step; intros H.
  apply step_into_inv in H; [|apply balanced_set_attr].
  destruct H as [c2 [H _]].
  apply set_attr_Return_inv in H; destruct H as [x [Hc Ha]].
  exists x, c2; split; assumption.
Qed.

(** The invariant of a stored value: a [REPEAT] field holds a list, and an
    absent value is stored only for a field whose default is absent. *)
Definition stored_ok (f : tpe) (x : value) : Prop :=
  (forall t, f = REPEAT t -> exists l, x = VList l)
  /\ (is_None x = true -> is_None (default f) = true).

Lemma construct_REPEAT_shape t v c x c1 :
  construct R (REPEAT t) v c = (Return x, c1) ->
  x = VNone \/ exists l, x = VList l.
Proof.
  simpl; destruct (is_None v); [intros H; inversion H; left; reflexivity|].
  assert (Hit :
    (match iter v with
     | Some listlike =>
         constructed_list <-
           for_each_enumerate
             (fun i el =>
                step_into "List" ("at element " ++ str_value R (VInt (Z.of_nat i)))
                  (construct R t el)) 0 listlike ;;
         ret (VList constructed_list)
     | None =>
         error ("Expected a listlike type, but got type " ++ type_name v ++ ".") ;;;
         ret VNone
     end) c = (Return x, c1) -> x = VNone \/ exists l, x = VList l).
  { destruct (iter v); intros H; apply bind_Return_inv in H;
      destruct H as [a [c2 [_ H]]]; inversion H; eauto. }
  destruct v; try exact Hit.
  intros H; apply bind_Return_inv in H; destruct H as [a [c2 [_ H]]].
  inversion H; left; reflexivity.
Qed.

Lemma resolved_ok f v c x c1 :
  construct R f v c = (Return x, c1) -> stored_ok f (resolved f x).
Proof.
  intros H; unfold resolved; split.
  - intros t Hf; subst f.
    destruct (construct_REPEAT_shape t v c x c1 H) as [Hx|[l Hx]]; subst x; simpl; eauto.
  - destruct (is_None x) eqn:E; [auto | intros H'; congruence].
Qed.

Lemma fields_stored kwargs ps :
  uniqueb (keys ps) = true ->
  forall attrs0 c attrs c',
    for_fold (field_step R kwargs) ps attrs0 c = (Return attrs, c') ->
    (forall p, In p ps ->
               exists x, lookup ("_" ++ fst p) attrs = Some x /\ stored_ok (snd p) x)
    /\ (forall k, In k (keys attrs) <->
                  In k (keys attrs0) \/ exists n, In n (keys ps) /\ k = "_" ++ n)
    /\ (forall k, (forall n, In n (keys ps) -> k <> "_" ++ n) ->
                  lookup k attrs = lookup k attrs0).
Proof.
  induction ps as [|p ps IH]; intros Hu attrs0 c attrs c' H.
  - inversion H; subst; split; [intros p []|]. split; [|reflexivity].
    intros k; split; [auto | intros [Hk|[n [[] _]]]; exact Hk].
  - cbn [for_fold] in H.
    apply bind_Return_inv in H; destruct H as [a1 [c1 [Hstep Hrest]]].
    apply field_step_Return_inv in Hstep; destruct Hstep as [x [c2 [Hc Ha1]]].
    cbn [keys map uniqueb] in Hu; apply andb_true_iff in Hu; destruct Hu as [Hp Hu].
    apply negb_true_iff in Hp.
    destruct (IH Hu _ _ _ _ Hrest) as [Hps [Hkeys Hother]].
    split; [|split].
    + intros q [Hq|Hq]; [subst q | apply Hps; assumption].
      exists (resolved (snd p) x); split; [|eapply resolved_ok; eassumption].
      rewrite Hother, Ha1; [apply lookup_dict_set_same|].
      intros n Hn Heq; apply prefix_inj in Heq; subst n.
      apply mem_string_In in Hn; unfold keys in Hn; congruence.
    + intros k; rewrite Hkeys, Ha1, In_keys_dict_set; cbn [keys map In].
      split.
      * intros [[Hk|Hk]|[n [Hn Hk]]].
        -- right; exists (fst p); split; [left; reflexivity | exact Hk].
        -- left; exact Hk.
        -- right; exists n; split; [right; exact Hn | exact Hk].
      * intros [Hk|[n [[Hn|Hn] Hk]]].
        -- left; right; exact Hk.
        -- subst n; left; left; exact Hk.
        -- right; exists n; split; assumption.
    + intros k Hk; rewrite Hother, Ha1.
      * apply lookup_dict_set_other, Hk; left; reflexivity.
      * intros n Hn; apply Hk; right; exact Hn.
Qed.



(** X10: a declared [OPTIONAL] field whose key is missing from the mapping
    (or is given as [None]) takes its default: the wrapped type is not
    consulted, no error is recorded and nothing is raised, in either mode. *)
Theorem optional_missing_takes_default :
  forall kwargs name t d attrs ctx,
    dict_get kwargs name = VNone ->
    construct R (OPTIONAL t d) (dict_get kwargs name) ctx = (Return d, ctx)
    /\ field_step R kwargs (name, OPTIONAL t d) attrs ctx
       = (Return (dict_set ("_" ++ name) d attrs), ctx).
Proof.
  intros kwargs name t d attrs ctx Hk; split.
  - rewrite Hk; reflexivity.
  - unfold field_step; apply step_into_pure.
    cbn [fst snd]; unfold set_attr; rewrite Hk; simpl.
    unfold bind, ret; simpl.
    destruct (is_None d) eqn:E; [|reflexivity].
    destruct d; try discriminate; reflexivity.
Qed.

End Attributes.


Lemma optional_missing_takes_default_witness :
  dict_get [("name", VStr "dense")] "units" = VNone
  /\ construct cpython (OPTIONAL int_t (VInt 10))
       (dict_get [("name", VStr "dense")] "units") (InitContext_new true)
     = (Return (VInt 10), InitContext_new true)
  /\ field_step cpython [("name", VStr "dense")] ("units", OPTIONAL int_t (VInt 10))
       [("_name", VStr "dense")] (InitContext_new true)
     = (Return (dict_set ("_" ++ "units") (VInt 10) [("_name", VStr "dense")]),
        InitContext_new true).
Proof.
  assert (H1 : dict_get [("name", VStr "dense")] "units" = VNone) by reflexivity.
  split; [exact H1|].
  exact (optional_missing_takes_default cpython [("name", VStr "dense")] "units"
           int_t (VInt 10) [("_name", VStr "dense")] (InitContext_new true) H1).
Defined.

(** ** The shape of serialised objects and the meaning of [__eq__] *)

Lemma omap_Return_inv {A B} (f : A -> outcome B) l ys :
  omap f l = Return ys -> Forall2 (fun x y => f x = Return y) l ys.
Proof.
  revert ys; induction l as [|x l IH]; simpl; intros ys H.
  - inversion H; constructor.
  - destruct (f x) as [y|e] eqn:E; simpl in H; [|discriminate].
    destruct (omap f l) as [ys'|e]; simpl in H; [|discriminate].
    inversion H; constructor; [assumption | apply IH; reflexivity].
Qed.

Lemma Forall2_In_left {A B} (Q : A -> B -> Prop) l l' x :
  Forall2 Q l l' -> In x l -> exists y, In y l' /\ Q x y.
Proof.
  induction 1 as [|a b l l' Hq _ IH]; intros Hin; [contradiction|].
  destruct Hin as [Hx|Hx].
  - subst a; exists b; split; [left; reflexivity | assumption].
  - destruct (IH Hx) as [y [Hy Hq']]; exists y; split; [right|]; assumption.
Qed.

Lemma all_true_iff {A} (check : A -> outcome bool) l :
  all_true check l = Return true <-> forall x, In x l -> check x = Return true.
Proof.
  induction l as [|x l IH]; simpl.
  - split; [intros _ y [] | reflexivity].
  - destruct (check x) as [[|]|e] eqn:E.
    + rewrite IH; split.
      * intros H y [Hy|Hy]; [subst y; exact E | apply H; exact Hy].
      * intros H y Hy; apply H; right; exact Hy.
    + split; [discriminate|].
      intros H; rewrite <- E; apply H; left; reflexivity.
    + split; [discriminate|].
      intros H; rewrite <- E; apply H; left; reflexivity.
Qed.

(** X11: when an object serialises, the result is a mapping whose keys
    are exactly the declared field names, in the order of declaration, and the
    entry of each field is what the [to_builtin] of its descriptor makes of the
    attribute of that field. *)
Theorem to_builtin_keys_are_fields :
  forall cls attrs b,
    _to_builtin (VObj cls attrs) = Return b ->
    exists d,
      b = VDict d
      /\ keys d = keys (config_properties cls)
      /\ forall name field_def,
          In (name, field_def) (config_properties cls) ->
          exists x y,
            lookup ("_" ++ name) attrs = Some x
            /\ field_to_builtin field_def x = Return y
            /\ In (name, y) d.
Proof.
  intros cls attrs b H; unfold _to_builtin in H.
  rewrite to_builtin_VObj in H.
  destruct (omap _ (config_properties cls)) as [d|e] eqn:Ho; simpl in H; [|discriminate].
  inversion H; subst b; clear H.
  exists d; split; [reflexivity|].
  rewrite omap_lookup_form in Ho.
  split; [apply (omap_keys _ _ _ Ho)|].
  intros name field_def Hin.
  apply omap_Return_inv in Ho.
  destruct (Forall2_In_left _ _ _ _ Ho Hin) as [[n y] [Hy Hq]]; cbn [fst snd] in Hq.
  destruct (lookup ("_" ++ name) attrs) as [x|]; cbn [obind] in Hq; [|discriminate].
  destruct (field_to_builtin field_def x) as [y'|e] eqn:Ef; cbn [obind] in Hq;
    [|discriminate].
  inversion Hq; subst n y'.
  exists x, y; repeat split; assumption.
Qed.

(** X12: [self == other] answers [True] exactly when [other] is of the
    class of [self] and, for every declared field, both objects have the
    attribute and the comparison of the loop body holds of the two: the early
    exits of the loop amount to a conjunction over the declared fields. *)
Theorem eq_true_iff_every_field :
  forall cls attrs other,
    __eq__ (VObj cls attrs) other = Return true
    <-> class_eqb cls (type_of other) = true
        /\ forall name,
            In name (keys (config_properties cls)) ->
            exists self_prop other_prop,
              lookup ("_" ++ name) attrs = Some self_prop
              /\ lookup ("_" ++ name) (attrs_of other) = Some other_prop
              /\ compare_props self_prop other_prop = Return true.
Proof.
  intros cls attrs other; unfold __eq__; rewrite py_eq_VObj.
  destruct (class_eqb cls (type_of other)); cbn [negb].
  - rewrite all_true_iff; split.
    + intros H; split; [reflexivity|].
      intros name Hin; specialize (H name Hin); cbv beta in H.
      destruct (lookup ("_" ++ name) attrs) as [a|]; [|discriminate].
      destruct (lookup ("_" ++ name) (attrs_of other)) as [b|]; [|discriminate].
      exists a, b; auto.
    + intros [_ H] name Hin.
      destruct (H name Hin) as [a [b [Ha [Hb Hc]]]].
      rewrite Ha, Hb; exact Hc.
  - split; [discriminate | intros [H _]; discriminate].
Qed.

(** ** [EITHER] over literals only *)

Lemma for_each_lift {A B} (f : A -> outcome B) l c :
  for_each (fun x => lift (f x)) l c
  = (omap f l, c).
Proof.
  induction l as [|x l IH]; [reflexivity|].
  cbn [for_each omap]; unfold bind at 1, lift at 1.
  destruct (f x) as [y|e]; [|reflexivity].
  unfold bind at 1; rewrite IH; cbn [obind].
  destruct (omap f l); reflexivity.
Qed.

Lemma omap_length {A B} (f : A -> outcome B) l ys :
  omap f l = Return ys -> List.length ys = List.length l.
Proof.
  intros H; apply omap_Return_inv in H.
  induction H; simpl; auto.
Qed.

Lemma error_then_run {A} msg (a : A) c :
  (error msg ;;; ret a) c
  = (if raise_exceptions c then Raise (ConfigException (error_str msg c)) else Return a,
     mkInitContext (_stack c) (_errors c ++ [error_str msg c]) (raise_exceptions c)).
Proof. unfold bind, error; destruct (raise_exceptions c); reflexivity. Qed.

(** X13: an [EITHER] that has literal alternatives only hands back the
    value itself, and leaves the context untouched, when the value equals
    exactly one of the literals; when it equals none or several, it records
    exactly one error and hands back nothing (the absent value in accumulate
    mode, the [ConfigException] of that error in raise mode). *)
Theorem EITHER_of_literals :
  forall R fix_values v ctx truths,
    omap (py_eq v) fix_values = Return truths ->
    fix_values <> [] ->
    (count_true truths = 1 ->
     construct R (EITHER [] fix_values) v ctx = (Return v, ctx))
    /\ (count_true truths <> 1 ->
        exists msg,
          construct R (EITHER [] fix_values) v ctx
          = (if raise_exceptions ctx
             then Raise (ConfigException (error_str msg ctx))
             else Return VNone,
             mkInitContext (_stack ctx) (_errors ctx ++ [error_str msg ctx])
               (raise_exceptions ctx))).
Proof.
  intros R fix_values v ctx truths Ht Hne.
  assert (Hc : construct R (EITHER [] fix_values) v ctx
               = EITHER_choose R [] fix_values v [] ctx) by reflexivity.
  rewrite Hc; unfold EITHER_choose.
  split; intros H1; unfold bind at 1; rewrite for_each_lift, Ht; cbn [map app].
  - rewrite H1; reflexivity.
  - apply Nat.eqb_neq in H1; rewrite H1; cbn [negb].
    pose proof (omap_length _ _ _ Ht) as Hlen.
    pose proof (select_length truths (map (str_value R) fix_values)) as Hsel.
    rewrite length_map in Hsel; specialize (Hsel Hlen).
    apply Nat.eqb_neq in H1.
    destruct (select truths (map (str_value R) fix_values)) as [|x sel] eqn:Es.
    + unfold bind at 1, lift, last_item.
      destruct (map (str_value R) fix_values) eqn:Em.
      * destruct fix_values; [contradiction | discriminate].
      * eexists; apply error_then_run.
    + assert (Hge : Nat.leb 2 (List.length (x :: sel)) = true).
      { apply Nat.leb_le; simpl in Hsel |- *; lia. }
      rewrite Hge; eexists; apply error_then_run.
Qed.

Lemma EITHER_of_literals_witness :
  omap (py_eq (VStr "adam")) [VStr "sgd"; VStr "adam"] = Return [false; true]
  /\ [VStr "sgd"; VStr "adam"] <> []
  /\ count_true [false; true] = 1
  /\ construct cpython (EITHER [] [VStr "sgd"; VStr "adam"]) (VStr "adam")
       (InitContext_new false)
     = (Return (VStr "adam"), InitContext_new false).
Proof.
  assert (H1 : omap (py_eq (VStr "adam")) [VStr "sgd"; VStr "adam"]
               = Return [false; true]) by reflexivity.
  assert (H2 : [VStr "sgd"; VStr "adam"] <> []) by discriminate.
  split; [exact H1|]. split; [exact H2|]. split; [reflexivity|].
  exact (proj1 (EITHER_of_literals cpython _ _ (InitContext_new false) _ H1 H2) eq_refl).
Defined.

Definition line_serialised : dict :=
  [("start", VDict [("x", VInt 0); ("y", VInt 0)]);
   ("points", VList [VDict [("x", VInt 1); ("y", VInt 2)];
                     VDict [("x", VInt 3); ("y", VInt 4)]]);
   ("tag", VStr "diagonal");
   ("meta", VDict [("closed", VBool false); ("width", VNone)])].

Lemma to_builtin_keys_are_fields_witness :
  _to_builtin line_object = Return (VDict line_serialised)
  /\ exists d,
      VDict line_serialised = VDict d
      /\ keys d = keys (config_properties Line)
      /\ forall name field_def,
          In (name, field_def) (config_properties Line) ->
          exists x y,
            lookup ("_" ++ name) (attrs_of line_object) = Some x
            /\ field_to_builtin field_def x = Return y
            /\ In (name, y) d.
Proof.
  assert (H1 : _to_builtin line_object = Return (VDict line_serialised))
    by (vm_compute; reflexivity).
  split; [exact H1|].
  exact (to_builtin_keys_are_fields Line (attrs_of line_object) (VDict line_serialised) H1).
Defined.

(** * The metaclass: how a class gets its [__config_properties__] *)

(** What a class namespace ([cls.__dict__]) can hold under a name. *)
Inductive member : Type :=
| MType (t : tpe)                         (* a class or a descriptor instance *)
| MValue (v : value)                      (* plain data *)
| MProperty (name : string)               (* the [property] set by [_add_property] *)
| MFunction                               (* a method *)
| MProps (props : list (string * tpe)).   (* a [__config_properties__] mapping *)

Definition namespace := list (string * member).

(** [d[k] = m]: a key that is present keeps its place. *)
Fixpoint ns_set (k : string) (m : member) (d : namespace) : namespace :=
  match d with
  | [] => [(k, m)]
  | (k', m') :: d' =>
      if String.eqb k k' then (k, m) :: d' else (k', m') :: ns_set k m d'
  end.

(** [d.update(items)], and the dict comprehension [{k: v for k, v in items}]
    when [d] is empty. *)
Definition ns_update (d items : namespace) : namespace :=
  fold_left (fun acc kv => ns_set (fst kv) (snd kv) acc) items d.

(** [issubclass(type(field_def), ConfigField)]: the type of a class is a
    metaclass, that of plain data, of a property or of a method is no
    descriptor class either. *)
Definition is_ConfigField (m : member) : bool :=
  match m with
  | MType t => negb (is_class t)
  | _ => false
  end.

(** [{n: field_def for n, field_def in fields.items()
      if issubclass(type(field_def), ConfigField)}] *)
Fixpoint fields_of (fields : namespace) : list (string * tpe) :=
  match fields with
  | [] => []
  | (n, MType t) :: fields' =>
      if is_ConfigField (MType t) then (n, t) :: fields_of fields'
      else fields_of fields'
  | _ :: fields' => fields_of fields'
  end.

(** [_MetaConfigObject.__new__(cls, clsname, bases, my_fields)]: the
    namespace handed to [type.__new__]; each base is given by its namespace. *)
Definition _MetaConfigObject_new (clsname : string)
           (bases : option (list namespace)) (my_fields : namespace) : namespace :=
  let bases_fields :=
    match bases with
    | Some bs => ns_update [] (List.concat bs)
    | None => []
    end in
  let fields := ns_update bases_fields my_fields in
  let config_properties := fields_of fields in
  ns_set "__config_properties__" (MProps config_properties) fields.

(** [cls.__config_properties__] of a class with that namespace. *)
Definition config_properties_of (ns : namespace) : list (string * tpe) :=
  match lookup "__config_properties__" ns with
  | Some (MProps props) => props
  | _ => []
  end.

(** [self._add_property(name)], as it acts on the namespace of
    [self.__class__]: [setattr(self.__class__, name, property(fget, fset))]. *)
Definition _add_property (cls_ns : namespace) (name : string) : namespace :=
  ns_set name (MProperty name) cls_ns.

Lemma lookup_app {A} n (l1 l2 : list (string * A)) :
  lookup n (l1 ++ l2)
  = match lookup n l1 with Some v => Some v | None => lookup n l2 end.
Proof.
  induction l1 as [|[k v] l1 IH]; simpl; [reflexivity|].
  destruct (String.eqb n k); [reflexivity | exact IH].
Qed.

Lemma lookup_ns_set n k m d :
  lookup n (ns_set k m d) = if String.eqb n k then Some m else lookup n d.
Proof.
  induction d as [|[k' m'] d IH]; simpl; [reflexivity|].
  destruct (String.eqb k k') eqn:E; simpl.
  - apply String.eqb_eq in E; subst k'.
    destruct (String.eqb n k); reflexivity.
  - rewrite IH.
    destruct (String.eqb n k) eqn:E1; [|reflexivity].
    apply String.eqb_eq in E1; subst n; rewrite E; reflexivity.
Qed.

Lemma lookup_ns_update n items : forall d,
  lookup n (ns_update d items)
  = match lookup n (rev items) with Some m => Some m | None => lookup n d end.
Proof.
  unfold ns_update.
  induction items as [|[k m] items IH]; intros d; simpl; [reflexivity|].
  rewrite IH, lookup_app, lookup_ns_set; simpl.
  destruct (lookup n (rev items)); [reflexivity|].
  destruct (String.eqb n k); reflexivity.
Qed.

Lemma mem_string_ns_set x k m d :
  mem_string x (keys (ns_set k m d)) = String.eqb x k || mem_string x (keys d).
Proof.
  induction d as [|[k' m'] d IH]; simpl.
  - reflexivity.
  - destruct (String.eqb k k') eqn:E; simpl.
    + apply String.eqb_eq in E; subst k'.
      destruct (String.eqb x k); reflexivity.
    + fold (mem_string x (keys (ns_set k m d))); rewrite IH.
      fold (mem_string x (keys d)).
      destruct (String.eqb x k), (String.eqb x k'); reflexivity.
Qed.

Lemma uniqueb_ns_set k m d :
  uniqueb (keys d) = true -> uniqueb (keys (ns_set k m d)) = true.
Proof.
  induction d as [|[k' m'] d IH]; simpl; [reflexivity|].
  intros Hu; apply andb_true_iff in Hu; destruct Hu as [Hn Hu].
  destruct (String.eqb k k') eqn:E; simpl.
  - apply String.eqb_eq in E; subst k'; rewrite Hn, Hu; reflexivity.
  - rewrite (IH Hu), mem_string_ns_set, String.eqb_sym, E.
    apply negb_true_iff in Hn; rewrite Hn; reflexivity.
Qed.

Lemma uniqueb_ns_update items : forall d,
  uniqueb (keys d) = true -> uniqueb (keys (ns_update d items)) = true.
Proof.
  unfold ns_update.
  induction items as [|[k m] items IH]; intros d Hu; simpl; [exact Hu|].
  apply IH, uniqueb_ns_set, Hu.
Qed.

Lemma mem_string_fields_of x d :
  mem_string x (keys (fields_of d)) = true -> mem_string x (keys d) = true.
Proof.
  induction d as [|[k m] d IH]; simpl; [auto|].
  fold (mem_string x (keys d)).
  destruct m as [t| | | |];
    try (intros H; rewrite (IH H); apply orb_true_r).
  destruct (negb (is_class t)); simpl.
  - fold (mem_string x (keys (fields_of d))).
    intros H; apply orb_true_iff in H; destruct H as [H|H].
    + rewrite H; reflexivity.
    + rewrite (IH H); apply orb_true_r.
  - intros H; rewrite (IH H); apply orb_true_r.
Qed.

Lemma uniqueb_fields_of d :
  uniqueb (keys d) = true -> uniqueb (keys (fields_of d)) = true.
Proof.
  induction d as [|[k m] d IH]; simpl; [reflexivity|].
  intros Hu; apply andb_true_iff in Hu; destruct Hu as [Hn Hu].
  destruct m as [t| | | |]; try (apply IH; exact Hu).
  destruct (negb (is_class t)); simpl; [|apply IH; exact Hu].
  rewrite (IH Hu), andb_true_r.
  apply negb_true_iff in Hn; apply negb_true_iff.
  destruct (mem_string k (keys (fields_of d))) eqn:E; [|reflexivity].
  apply mem_string_fields_of in E; rewrite E in Hn; discriminate.
Qed.

Lemma lookup_fields_of n d :
  uniqueb (keys d) = true ->
  lookup n (fields_of d)
  = match lookup n d with
    | Some (MType t) => if is_class t then None else Some t
    | _ => None
    end.
Proof.
  induction d as [|[k m] d IH]; simpl; [reflexivity|].
  intros Hu; apply andb_true_iff in Hu; destruct Hu as [Hn Hu].
  apply negb_true_iff in Hn.
  assert (Hskip : String.eqb n k = true -> lookup n (fields_of d) = None).
  { intros E; apply String.eqb_eq in E; subst k.
    apply lookup_not_in.
    destruct (mem_string n (keys (fields_of d))) eqn:E; [|reflexivity].
    apply mem_string_fields_of in E; rewrite E in Hn; discriminate. }
  destruct m as [t| | | |];
    try (destruct (String.eqb n k); [apply Hskip; reflexivity | apply IH; exact Hu]).
  destruct (is_class t) eqn:Ec; simpl.
  - destruct (String.eqb n k); [rewrite Ec; apply Hskip; reflexivity | apply IH; exact Hu].
  - destruct (String.eqb n k); [rewrite Ec; reflexivity | apply IH; exact Hu].
Qed.

Lemma ns_update_app d items1 items2 :
  ns_update (ns_update d items1) items2 = ns_update d (items1 ++ items2)%list.
Proof. unfold ns_update; rewrite fold_left_app; reflexivity. Qed.

Lemma metaclass_fields clsname bs my_fields :
  config_properties_of (_MetaConfigObject_new clsname (Some bs) my_fields)
  = fields_of (ns_update [] (List.concat bs ++ my_fields)%list).
Proof.
  unfold config_properties_of, _MetaConfigObject_new.
  rewrite lookup_ns_set, String.eqb_refl, ns_update_app; reflexivity.
Qed.

(** X14: the [__config_properties__] the metaclass gives a class has
    pairwise distinct names, and it maps a name to the last thing bound to
    that name, going through the namespaces of the bases in the order of the
    bases and then through the class body, provided that thing is a field
    descriptor: the class body overrides the bases, a later base overrides an
    earlier one, and a name rebound to anything but a descriptor is no field. *)
Theorem metaclass_config_properties :
  forall clsname bs my_fields,
    uniqueb (keys (config_properties_of
                     (_MetaConfigObject_new clsname (Some bs) my_fields))) = true
    /\ forall n,
        lookup n (config_properties_of
                    (_MetaConfigObject_new clsname (Some bs) my_fields))
        = match lookup n (rev (List.concat bs ++ my_fields)%list) with
          | Some (MType field_def) =>
              if is_class field_def then None else Some field_def
          | _ => None
          end.
Proof.
  intros clsname bs my_fields; rewrite metaclass_fields.
  assert (Hu : uniqueb (keys (ns_update [] (List.concat bs ++ my_fields)%list)) = true)
    by (apply uniqueb_ns_update; reflexivity).
  split; [apply uniqueb_fields_of, Hu|].
  intros n; rewrite (lookup_fields_of n _ Hu), lookup_ns_update; simpl.
  destruct (lookup n (rev (List.concat bs ++ my_fields)%list)); reflexivity.
Qed.

Lemma lookup_rev_unique {A} n (d : list (string * A)) :
  uniqueb (keys d) = true -> lookup n (rev d) = lookup n d.
Proof.
  induction d as [|[k m] d IH]; simpl; [reflexivity|].
  intros Hu; apply andb_true_iff in Hu; destruct Hu as [Hn Hu].
  rewrite lookup_app, (IH Hu); simpl.
  destruct (String.eqb n k) eqn:E; [|destruct (lookup n d); reflexivity].
  apply String.eqb_eq in E; subst k.
  apply negb_true_iff in Hn; rewrite (lookup_not_in _ _ Hn); reflexivity.
Qed.

Lemma lookup_None_rev {A} n (d : list (string * A)) :
  lookup n d = None -> lookup n (rev d) = None.
Proof.
  induction d as [|[k m] d IH]; simpl; [reflexivity|].
  destruct (String.eqb n k) eqn:E; [discriminate|].
  intros H; rewrite lookup_app, (IH H); simpl; rewrite E; reflexivity.
Qed.

(** X15: [_add_property] rebinds the name of a field, in the namespace of
    the class, to a property.  A class declared afterwards with that class as
    its last base therefore does not inherit the field: the name is a field of
    the new class only if the class body binds it again. *)
Theorem add_property_hides_inherited_field :
  forall clsname bs base name my_fields,
    uniqueb (keys base) = true ->
    lookup name my_fields = None ->
    lookup name
      (config_properties_of
         (_MetaConfigObject_new clsname
            (Some (bs ++ [_add_property base name])%list) my_fields))
    = None.
Proof.
  intros clsname bs base name my_fields Hu Hmy.
  apply lookup_None_rev in Hmy.
  rewrite metaclass_fields.
  rewrite lookup_fields_of by (apply uniqueb_ns_update; reflexivity).
  rewrite lookup_ns_update, concat_app; simpl List.concat.
  rewrite app_nil_r, !rev_app_distr, !lookup_app, Hmy.
  unfold _add_property.
  rewrite lookup_rev_unique by (apply uniqueb_ns_set, Hu).
  rewrite lookup_ns_set, String.eqb_refl; reflexivity.
Qed.

Definition Point_namespace : namespace :=
  [("x", MType (REQUIRED int_t)); ("y", MType (REQUIRED int_t));
   ("__config_properties__",
    MProps [("x", REQUIRED int_t); ("y", REQUIRED int_t)])].

Lemma add_property_hides_inherited_field_witness :
  uniqueb (keys Point_namespace) = true
  /\ lookup "x" [("z", MType (REQUIRED int_t))] = None
  /\ lookup "x"
       (config_properties_of
          (_MetaConfigObject_new "Point3"
             (Some ([] ++ [_add_property Point_namespace "x"])%list)
             [("z", MType (REQUIRED int_t))]))
     = None.
Proof.
  assert (H1 : uniqueb (keys Point_namespace) = true) by reflexivity.
  assert (H2 : lookup "x" [("z", MType (REQUIRED int_t))] = None) by reflexivity.
  split; [exact H1|]. split; [exact H2|].
  exact (add_property_hides_inherited_field "Point3" [] Point_namespace "x"
           [("z", MType (REQUIRED int_t))] H1 H2).
Defined.
